(** * somanews: blindspot detection, story routes and components

    A shallow embedding of the API route handlers of the somanews
    repository,

      - [src/app/api/blindspots/route.ts]            (module [Blindspots]),
      - the second blindspot handler that is appended to
        [src/app/api/stories/[storyId]/route.ts]     (module [BlindspotsCopy]),
      - [src/app/api/stories/[storyId]/route.ts]     (module [StoryRoute]),
      - [src/app/api/stories/route.ts]               (module [StoriesRoute]),
      - the POST handler of the sources route        (module [SourcesRoute]),
      - [src/components/BiasBar.tsx]                 (module [BiasBar]),
      - [src/components/StoryCard.tsx]               (module [StoryCard]),

    over the tables of [migrations/0001_initial.sql] (module [Schema]),
    followed by the properties of the handlers.

    Modelling conventions.

      - A JavaScript [number] that holds a count is a [Z]; a quotient of
        two counts is an exact rational, with the three non-finite values
        of JavaScript kept apart ([JS.number]).  Rounding of doubles is not
        modelled.  A string is a sequence of code units below 256.
      - A plain object used as a map from bias names to counts, and a
        [Map], are association lists in insertion order: this is the order
        in which [Object.entries] and [Map.prototype.entries] enumerate
        them.  For a plain object this holds of ordinary property names
        ([Names.ordinary]): an object enumerates array-index names first,
        and it inherits the members of [Object.prototype], which a read
        finds and which an assignment to [__proto__] does not make an own
        property.  The statements that read an object by its names, or
        that depend on the order of its names, assume ordinary names.  An
        unordered finite map would lose the order, which decides ties.
      - [Array.prototype.sort] is stable; it is modelled by the stable
        insertion sort, which yields the same array for every comparator
        that is consistent on the array.
      - A handler is a function from the request and from what the D1
        binding answers to the response; a statement that throws is a
        rejected outcome and reaches the handler's [catch].  A statement
        whose text the handler builds is refused by the database when a
        placeholder of it is no parameter ([SQLite.is_variable]). *)

From Stdlib Require Import ZArith QArith Qreduction Lqa Lia.
From Stdlib Require Import List String Ascii Bool.
From Stdlib Require Import Permutation Sorted.
Import ListNotations.

Local Open Scope Z_scope.

(** ** JavaScript values and built-ins used by the handlers *)

Module JS.

(** Numbers that arise from dividing and subtracting counts. *)
Inductive number : Type :=
| Fin (q : Q)
| PosInf
| NegInf
| NaN.

(** [a / b] on two integer-valued numbers. *)
Definition div (a b : Z) : number :=
  if b =? 0 then
    if a =? 0 then NaN else if 0 <? a then PosInf else NegInf
  else Fin (Qred (inject_Z a / inject_Z b)%Q).

(** [x - y]. *)
Definition sub (x y : number) : number :=
  match x, y with
  | NaN, _ | _, NaN => NaN
  | Fin a, Fin b => Fin (a - b)%Q
  | PosInf, PosInf | NegInf, NegInf => NaN
  | PosInf, _ => PosInf
  | NegInf, _ => NegInf
  | Fin _, PosInf => NegInf
  | Fin _, NegInf => PosInf
  end.

(** [x >= y]: false as soon as one side is [NaN]. *)
Definition ge (x y : number) : bool :=
  match x, y with
  | NaN, _ | _, NaN => false
  | Fin a, Fin b => Qle_bool b a
  | PosInf, _ => true
  | _, NegInf => true
  | Fin _, PosInf => false
  | NegInf, _ => false
  end.

(** [x <= y]. *)
Definition le (x y : number) : bool := ge y x.

(** [v > 0], the test a sort makes on the value of its comparator. *)
Definition gt0 (v : number) : bool :=
  match v with
  | Fin q => negb (Qle_bool q 0)
  | PosInf => true
  | NegInf | NaN => false
  end.

Definition is_finite (v : number) : bool :=
  match v with Fin _ => true | _ => false end.

(** *** Strings: [parseInt (s, 10)] and [parseFloat s] *)

Definition code (c : ascii) : Z := Z.of_N (N_of_ascii c).

(** The white space that [parseInt] and [parseFloat] skip, among the code
    units below 256: TAB, LF, VT, FF, CR, SP and NBSP. *)
Definition isWhiteSpace (c : ascii) : bool :=
  let n := code c in
  (n =? 9) || (n =? 10) || (n =? 11) || (n =? 12) || (n =? 13) || (n =? 32)
  || (n =? 160).

Definition digit (c : ascii) : option Z :=
  let n := code c in
  if (48 <=? n) && (n <=? 57) then Some (n - 48) else None.

Fixpoint trimStart (cs : list ascii) : list ascii :=
  match cs with
  | c :: rest => if isWhiteSpace c then trimStart rest else cs
  | [] => []
  end.

(** The longest prefix of decimal digits and what follows it. *)
Fixpoint digits (cs : list ascii) : list Z * list ascii :=
  match cs with
  | c :: rest =>
      match digit c with
      | Some d => let '(ds, tl) := digits rest in (d :: ds, tl)
      | None => ([], cs)
      end
  | [] => ([], [])
  end.

Definition digits_value (ds : list Z) : Z :=
  fold_left (fun acc d => 10 * acc + d) ds 0.

(** A leading sign: [true] for a minus. *)
Definition sign (cs : list ascii) : bool * list ascii :=
  match cs with
  | "-"%char :: rest => (true, rest)
  | "+"%char :: rest => (false, rest)
  | _ => (false, cs)
  end.

(** [parseInt (s, 10)]; [None] is [NaN]. *)
Definition parseInt (s : string) : option Z :=
  let '(neg, cs) := sign (trimStart (list_ascii_of_string s)) in
  match digits cs with
  | ([], _) => None
  | (ds, _) => Some (if neg then - digits_value ds else digits_value ds)
  end.

Definition isNaN (v : option Z) : bool :=
  match v with None => true | Some _ => false end.

Fixpoint starts_with (p cs : list ascii) : bool :=
  match p, cs with
  | [], _ => true
  | a :: p', c :: cs' => Ascii.eqb a c && starts_with p' cs'
  | _ :: _, [] => false
  end.

(** The exponent part [e[+-]ddd], when the digits are there. *)
Definition exponent (cs : list ascii) : Z :=
  match cs with
  | c :: rest =>
      if Ascii.eqb c "e" || Ascii.eqb c "E" then
        let '(neg, rest') := sign rest in
        match digits rest' with
        | ([], _) => 0
        | (ds, _) => if neg then - digits_value ds else digits_value ds
        end
      else 0
  | [] => 0
  end.

Definition pow10 (e : Z) : Q :=
  if 0 <=? e then inject_Z (10 ^ e) else (/ inject_Z (10 ^ (- e)))%Q.

(** [parseFloat s]: the value of the longest prefix of the trimmed
    string that is a decimal literal. *)
Definition parseFloat (s : string) : number :=
  let '(neg, cs) := sign (trimStart (list_ascii_of_string s)) in
  if starts_with (list_ascii_of_string "Infinity") cs then
    if neg then NegInf else PosInf
  else
    let '(ip, r1) := digits cs in
    let '(fp, r2) :=
      match r1 with
      | "."%char :: r => digits r
      | _ => ([], r1)
      end in
    match ip, fp with
    | [], [] => NaN
    | _, _ =>
        let m := (inject_Z (digits_value (ip ++ fp))
                  * pow10 (exponent r2 - Z.of_nat (List.length fp)))%Q in
        Fin (Qred (if neg then (- m)%Q else m))
    end.

(** [v || d] on a string that may be [null]. *)
Definition or_default (v : option string) (d : string) : string :=
  match v with
  | Some s => if String.eqb s "" then d else s
  | None => d
  end.

(** *** Insertion-ordered maps: plain objects and [Map] *)

Section Ordered.
Context {K V : Type} (eqb : K -> K -> bool).

Fixpoint lookup (m : list (K * V)) (k : K) : option V :=
  match m with
  | [] => None
  | (k', v) :: m' => if eqb k' k then Some v else lookup m' k
  end.

(** An existing key keeps its place, a new key goes last. *)
Fixpoint store (m : list (K * V)) (k : K) (v : V) : list (K * V) :=
  match m with
  | [] => [(k, v)]
  | (k', v') :: m' =>
      if eqb k' k then (k, v) :: m' else (k', v') :: store m' k v
  end.

Definition member (m : list (K * V)) (k : K) : bool :=
  match lookup m k with Some _ => true | None => false end.
End Ordered.

(** A plain object, by its own properties in the order of their
    creation.  The three operations are those of an object whose names are
    ordinary: a name of [Object.prototype] is found by a read before any
    assignment, [__proto__] is not made an own property by an assignment,
    and array-index names are enumerated first, in ascending order; these
    are not modelled. *)
Definition object (V : Type) : Type := list (string * V).
(** [o[k]], [None] for [undefined]. *)
Definition obj_get {V} (o : object V) (k : string) : option V :=
  lookup String.eqb o k.
(** [o[k] = v]. *)
Definition obj_set {V} (o : object V) (k : string) (v : V) : object V :=
  store String.eqb o k v.
(** [Object.entries (o)]. *)
Definition Object_entries {V} (o : object V) : list (string * V) := o.

Definition Map (V : Type) : Type := list (Z * V).
Definition Map_has {V} (m : Map V) (k : Z) : bool := member Z.eqb m k.
Definition Map_get {V} (m : Map V) (k : Z) : option V := lookup Z.eqb m k.
Definition Map_set {V} (m : Map V) (k : Z) (v : V) : Map V :=
  store Z.eqb m k v.
Definition Map_entries {V} (m : Map V) : list (Z * V) := m.

(** *** Arrays: [sort] and [slice (0, end)] *)

Section Sort.
Context {A : Type} (comparefn : A -> A -> number).

(** [x] stood before every element of [s]: it moves behind the
    elements that the comparator orders strictly before it. *)
Fixpoint insert (x : A) (s : list A) : list A :=
  match s with
  | [] => [x]
  | y :: s' =>
      if gt0 (comparefn x y) then y :: insert x s' else x :: y :: s'
  end.

Definition sort (l : list A) : list A := fold_right insert [] l.
End Sort.

(** [l.slice (0, end)] for an integer or [NaN] [end]. *)
Definition slice0 {A} (l : list A) (end_ : option Z) : list A :=
  let len := Z.of_nat (List.length l) in
  let relativeEnd := match end_ with Some e => e | None => 0 end in
  let final :=
    if relativeEnd <? 0 then Z.max (len + relativeEnd) 0
    else Z.min relativeEnd len in
  firstn (Z.to_nat final) l.

End JS.

(** ** Property names *)

Module Names.

(** The names of the members of [Object.prototype], which every plain
    object inherits. *)
Definition Object_prototype : list string :=
  ["constructor"; "__defineGetter__"; "__defineSetter__"; "hasOwnProperty";
   "__lookupGetter__"; "__lookupSetter__"; "isPrototypeOf";
   "propertyIsEnumerable"; "toString"; "valueOf"; "__proto__";
   "toLocaleString"]%string.

Definition inherited (k : string) : bool :=
  existsb (String.eqb k) Object_prototype.

(** A name made of decimal digits only.  The array-index names, which an
    object enumerates before its other names, are among these. *)
Definition numeric (k : string) : bool :=
  match list_ascii_of_string k with
  | [] => false
  | cs => forallb (fun c => match JS.digit c with Some _ => true | None => false end) cs
  end.

(** A name that a plain object treats as the association list does. *)
Definition ordinary (k : string) : bool :=
  negb (inherited k) && negb (numeric k).

End Names.


(** ** Requests, responses and the D1 binding *)

Module Http.

(** The query string of the request, decoded, in the order it was sent. *)
Record NextRequest : Type := { searchParams : list (string * string) }.

(** [searchParams.get (name)]: the first value, or [null]. *)
Fixpoint searchParams_get (ps : list (string * string)) (name : string)
  : option string :=
  match ps with
  | [] => None
  | (k, v) :: ps' => if String.eqb k name then Some v else searchParams_get ps' name
  end.

(** The [details] member of an error body. *)
Inductive Details : Type :=
| NoDetails
| Message (message : string)
| MessageAndStack (message : string).

Inductive Body (A : Type) : Type :=
| Payload (a : A)
| Error (error : string) (details : Details).
Arguments Payload {A} a.
Arguments Error {A} error details.

Record NextResponse (A : Type) : Type := { status : Z; body : Body A }.
Arguments status {A} _.
Arguments body {A} _.

(** [NextResponse.json (x)] answers 200 unless a status is given. *)
Definition json {A} (a : A) : NextResponse A :=
  {| status := 200; body := Payload a |}.
Definition json_error {A} (error : string) (details : Details) (st : Z)
  : NextResponse A :=
  {| status := st; body := Error error details |}.

End Http.

Module D1.

(** What [stmt.all ()] resolves to. *)
Record Result (A : Type) : Type :=
  { success : bool; results : option (list A); error : string }.
Arguments success {A} _.
Arguments results {A} _.
Arguments error {A} _.

(** A call that returns or throws. *)
Inductive Outcome (A : Type) : Type :=
| Resolved (a : A)
| Rejected (message : string).
Arguments Resolved {A} a.
Arguments Rejected {A} message.

(** The answer of a database that ran the statement. *)
Definition rows {A} (l : list A) : Outcome (Result A) :=
  Resolved {| success := true; results := Some l; error := "" |}.

End D1.

(** ** The blindspot detector *)

(** Types shared by the two copies of the handler. *)
Module Row.
(** A row of [stories JOIN story_coverage]. *)
Record t : Type :=
  { id : Z;
    representative_headline : string;
    summary : option string;
    first_seen_date : string;
    last_updated_date : string;
    topic_tags : option string;
    bias_classification : string;
    article_count : Z }.
End Row.

Module StoryInfo.
Record t : Type :=
  { id : Z;
    representative_headline : string;
    summary : option string;
    first_seen_date : string;
    last_updated_date : string;
    topic_tags : option string }.
End StoryInfo.

Module StoryData.
(** A value of [storiesMap]. *)
Record t : Type :=
  { story : StoryInfo.t;
    coverage : JS.object Z;
    total : Z }.
End StoryData.

Module BlindspotStory.
Record t : Type :=
  { id : Z;
    representative_headline : string;
    summary : option string;
    first_seen_date : string;
    last_updated_date : string;
    topic_tags : option string;
    bias_distribution : JS.object Z;
    total_articles : Z;
    dominant_bias : string;
    dominant_percentage : JS.number }.
End BlindspotStory.

Module Detector.

(** The binding, by what it answers to [storiesQuery]. *)
Record Database : Type := { storiesQuery : D1.Outcome (D1.Result Row.t) }.
Record Env : Type := { DB : option Database }.

(** [getRequestContext ()] in a deployment whose database answers [l]. *)
Definition serving (l : list Row.t) : D1.Outcome Env :=
  D1.Resolved {| DB := Some {| storiesQuery := D1.rows l |} |}.

Definition story_of_row (row : Row.t) : StoryInfo.t :=
  {| StoryInfo.id := Row.id row;
     StoryInfo.representative_headline := Row.representative_headline row;
     StoryInfo.summary := Row.summary row;
     StoryInfo.first_seen_date := Row.first_seen_date row;
     StoryInfo.last_updated_date := Row.last_updated_date row;
     StoryInfo.topic_tags := Row.topic_tags row |}.

(** [if (!storiesMap.has (row.id)) storiesMap.set (row.id, {...})]. *)
Definition ensure (storiesMap : JS.Map StoryData.t) (row : Row.t)
  : JS.Map StoryData.t :=
  if JS.Map_has storiesMap (Row.id row) then storiesMap
  else JS.Map_set storiesMap (Row.id row)
         {| StoryData.story := story_of_row row;
            StoryData.coverage := [];
            StoryData.total := 0 |}.

(** The loop that finds the dominant bias category. *)
Definition dominant_step (acc : string * Z) (entry : string * Z) : string * Z :=
  let '(dominantBias, dominantCount) := acc in
  let '(bias, count) := entry in
  if count >? dominantCount then (bias, count) else (dominantBias, dominantCount).

Definition find_dominant (cov : JS.object Z) : string * Z :=
  fold_left dominant_step (JS.Object_entries cov) (""%string, 0).

Definition blindspot (data : StoryData.t) (dominantBias : string)
  (dominantPercentage : JS.number) : BlindspotStory.t :=
  let s := StoryData.story data in
  {| BlindspotStory.id := StoryInfo.id s;
     BlindspotStory.representative_headline := StoryInfo.representative_headline s;
     BlindspotStory.summary := StoryInfo.summary s;
     BlindspotStory.first_seen_date := StoryInfo.first_seen_date s;
     BlindspotStory.last_updated_date := StoryInfo.last_updated_date s;
     BlindspotStory.topic_tags := StoryInfo.topic_tags s;
     BlindspotStory.bias_distribution := StoryData.coverage data;
     BlindspotStory.total_articles := StoryData.total data;
     BlindspotStory.dominant_bias := dominantBias;
     BlindspotStory.dominant_percentage := dominantPercentage |}.

(** [(a, b) => b.dominant_percentage - a.dominant_percentage]. *)
Definition by_percentage (a b : BlindspotStory.t) : JS.number :=
  JS.sub (BlindspotStory.dominant_percentage b)
         (BlindspotStory.dominant_percentage a).

Definition limit_of (request : Http.NextRequest) : option Z :=
  JS.parseInt
    (JS.or_default (Http.searchParams_get (Http.searchParams request) "limit") "10").

Definition threshold_of (request : Http.NextRequest) : JS.number :=
  JS.parseFloat
    (JS.or_default (Http.searchParams_get (Http.searchParams request) "threshold") "0.7").

Definition Response : Type := Http.NextResponse (list BlindspotStory.t).

End Detector.

(** *** [src/app/api/blindspots/route.ts] *)

Module Blindspots.
Import Detector.

(** The body of the grouping loop: the entry of the row's story gets the
    row's count under the row's bias, and its total grows by the count. *)
Definition group_row (storiesMap : JS.Map StoryData.t) (row : Row.t)
  : JS.Map StoryData.t :=
  let storiesMap := ensure storiesMap row in
  match JS.Map_get storiesMap (Row.id row) with
  | Some storyData =>
      JS.Map_set storiesMap (Row.id row)
        {| StoryData.story := StoryData.story storyData;
           StoryData.coverage :=
             JS.obj_set (StoryData.coverage storyData)
               (Row.bias_classification row) (Row.article_count row);
           StoryData.total := StoryData.total storyData + Row.article_count row |}
  | None => storiesMap
  end.

Definition group (rows : list Row.t) : JS.Map StoryData.t :=
  fold_left group_row rows [].

(** [dominantCount / data.total]. *)
Definition dominant_percentage (data : StoryData.t) : JS.number :=
  JS.div (snd (find_dominant (StoryData.coverage data))) (StoryData.total data).

(** The body of the loop that identifies blindspots. *)
Definition identify_entry (threshold : JS.number)
  (blindspots : list BlindspotStory.t) (entry : Z * StoryData.t)
  : list BlindspotStory.t :=
  let data := snd entry in
  if StoryData.total data <? 3 then blindspots
  else
    let dominantBias := fst (find_dominant (StoryData.coverage data)) in
    let dominantPercentage := dominant_percentage data in
    if JS.ge dominantPercentage threshold
    then blindspots ++ [blindspot data dominantBias dominantPercentage]
    else blindspots.

Definition identify (threshold : JS.number) (storiesMap : JS.Map StoryData.t)
  : list BlindspotStory.t :=
  fold_left (identify_entry threshold) (JS.Map_entries storiesMap) [].

(** The handler after its parameters are read and the rows are there. *)
Definition detect (limit : option Z) (threshold : JS.number) (rows : list Row.t)
  : list BlindspotStory.t :=
  let blindspots := identify threshold (group rows) in
  JS.slice0 (JS.sort by_percentage blindspots) limit.

Definition failed (message : string) : Response :=
  Http.json_error "Failed to fetch blindspots" (Http.Message message) 500.

Definition GET (request : Http.NextRequest) (context : D1.Outcome Env) : Response :=
  let limit := limit_of request in
  let threshold := threshold_of request in
  match context with
  | D1.Rejected message => failed message
  | D1.Resolved env =>
      match DB env with
      | None => Http.json_error "Database binding not found" Http.NoDetails 500
      | Some db =>
          match storiesQuery db with
          | D1.Rejected message => failed message
          | D1.Resolved storiesResult =>
              match D1.results storiesResult with
              | None | Some [] => Http.json []
              | Some rows => Http.json (detect limit threshold rows)
              end
          end
      end
  end.

End Blindspots.

(** *** The copy in [src/app/api/stories/[storyId]/route.ts] *)

Module BlindspotsCopy.
Import Detector.

(** [Number (x) || 0] on a count. *)
Definition number_or_0 (x : Z) : Z := if x =? 0 then 0 else x.

(** [coverage[biasKey] || 0], for a bias key that [coverage] does not
    inherit ([Names.inherited]): for an inherited name that is not yet an
    own property the read finds the member of [Object.prototype]. *)
Definition count_or_0 (cov : JS.object Z) (biasKey : string) : Z :=
  match JS.obj_get cov biasKey with
  | Some c => number_or_0 c
  | None => 0
  end.

(** The body of the grouping loop: counts under one bias accumulate. *)
Definition group_row (storiesMap : JS.Map StoryData.t) (row : Row.t)
  : JS.Map StoryData.t :=
  let storiesMap := ensure storiesMap row in
  match JS.Map_get storiesMap (Row.id row) with
  | Some storyData =>
      let biasKey := Row.bias_classification row in
      let count := number_or_0 (Row.article_count row) in
      JS.Map_set storiesMap (Row.id row)
        {| StoryData.story := StoryData.story storyData;
           StoryData.coverage :=
             JS.obj_set (StoryData.coverage storyData) biasKey
               (count_or_0 (StoryData.coverage storyData) biasKey + count);
           StoryData.total := StoryData.total storyData + count |}
  | None => storiesMap
  end.

Definition group (rows : list Row.t) : JS.Map StoryData.t :=
  fold_left group_row rows [].

(** [data.total > 0 ? (dominantCount / data.total) : 0]. *)
Definition dominant_percentage (data : StoryData.t) : JS.number :=
  if StoryData.total data >? 0
  then JS.div (snd (find_dominant (StoryData.coverage data))) (StoryData.total data)
  else JS.Fin 0.

Definition identify_entry (threshold : JS.number)
  (blindspots : list BlindspotStory.t) (entry : Z * StoryData.t)
  : list BlindspotStory.t :=
  let data := snd entry in
  if StoryData.total data <? 3 then blindspots
  else
    let dominantBias := fst (find_dominant (StoryData.coverage data)) in
    let dominantPercentage := dominant_percentage data in
    if JS.ge dominantPercentage threshold
    then blindspots ++ [blindspot data dominantBias dominantPercentage]
    else blindspots.

Definition identify (threshold : JS.number) (storiesMap : JS.Map StoryData.t)
  : list BlindspotStory.t :=
  fold_left (identify_entry threshold) (JS.Map_entries storiesMap) [].

Definition detect (limit : option Z) (threshold : JS.number) (rows : list Row.t)
  : list BlindspotStory.t :=
  let blindspots := identify threshold (group rows) in
  JS.slice0 (JS.sort by_percentage blindspots) limit.

Definition GET (request : Http.NextRequest) (context : D1.Outcome Env) : Response :=
  let limit := limit_of request in
  let threshold := threshold_of request in
  match context with
  | D1.Rejected _ =>
      Http.json_error "Failed to access Cloudflare context" Http.NoDetails 500
  | D1.Resolved env =>
      match DB env with
      | None => Http.json_error "Database binding not found" Http.NoDetails 500
      | Some db =>
          match storiesQuery db with
          | D1.Rejected message =>
              Http.json_error "Failed to fetch blindspots"
                (Http.MessageAndStack message) 500
          | D1.Resolved storiesResult =>
              if negb (D1.success storiesResult) then
                Http.json_error "Database query failed"
                  (Http.Message (D1.error storiesResult)) 500
              else
                match D1.results storiesResult with
                | None | Some [] => Http.json []
                | Some rows => Http.json (detect limit threshold rows)
                end
          end
      end
  end.

End BlindspotsCopy.

(** ** The tables of [migrations/0001_initial.sql] *)

Module Source.
Record t : Type :=
  { id : Z;
    name : string;
    url : string;
    rss_url : option string;
    bias_classification : string;
    logo_url : option string;
    last_checked : option string }.
End Source.

Module Article.
Record t : Type :=
  { id : Z;
    source_id : Z;
    url : string;
    title : string;
    content_snippet : option string;
    full_content : option string;
    published_date : option string;
    fetched_date : string;
    story_id : option Z;
    embedding : option string }.
End Article.

Module Coverage.
(** A row of [story_coverage]. *)
Record t : Type :=
  { story_id : Z;
    bias_classification : string;
    article_count : Z }.
End Coverage.

Module Schema.

(** The rows of [stories] carry the columns of [StoryInfo.t]. *)
Record Tables : Type :=
  { sources : list Source.t;
    stories : list StoryInfo.t;
    articles : list Article.t;
    story_coverage : list Coverage.t }.

(** [SELECT ... FROM stories WHERE id = ?], first row. *)
Definition story_by_id (t : Tables) (storyId : Z) : option StoryInfo.t :=
  find (fun s => StoryInfo.id s =? storyId) (stories t).

Definition source_by_id (t : Tables) (sourceId : Z) : option Source.t :=
  find (fun s => Source.id s =? sourceId) (sources t).

Definition in_story (storyId : Z) (a : Article.t) : bool :=
  match Article.story_id a with
  | Some sid => sid =? storyId
  | None => false
  end.

(** The articles of a story, in table order. *)
Definition articles_of (t : Tables) (storyId : Z) : list Article.t :=
  filter (in_story storyId) (articles t).

(** [SELECT ... FROM story_coverage WHERE story_id = ?]. *)
Definition coverage_of (t : Tables) (storyId : Z) : list Coverage.t :=
  filter (fun c => Coverage.story_id c =? storyId) (story_coverage t).




End Schema.

(** ** [src/app/api/stories/[storyId]/route.ts] *)

Module ArticleRow.
(** An article with the name and the bias of its source. *)
Record t : Type :=
  { id : Z;
    title : string;
    content_snippet : option string;
    url : string;
    published_date : option string;
    fetched_date : string;
    source_id : Z;
    source_name : string;
    source_bias : string }.
End ArticleRow.

Module StoryRoute.

(** The statements the handler runs, with the bound story id. *)
Inductive Statement : Type :=
| StoryQuery (storyId : Z)
| ArticlesQuery (storyId : Z)
| BiasQuery (storyId : Z).

(** The binding, by what it answers to each statement. *)
Record Database : Type :=
  { storyQuery : Z -> D1.Outcome (option StoryInfo.t);
    articlesQuery : Z -> D1.Outcome (D1.Result ArticleRow.t);
    biasQuery : Z -> D1.Outcome (D1.Result (string * Z)) }.
Record Env : Type := { DB : option Database }.

Record StoryDetail : Type :=
  { story : StoryInfo.t;
    articles : list ArticleRow.t;
    articlesByBias : JS.object (list ArticleRow.t);
    bias_distribution : list (string * Z) }.

Definition Response : Type := Http.NextResponse StoryDetail.

(** The body of the loop that groups the articles by bias. *)
Definition by_bias_step (articlesByBias : JS.object (list ArticleRow.t))
  (article : ArticleRow.t) : JS.object (list ArticleRow.t) :=
  let bias := ArticleRow.source_bias article in
  let present :=
    match JS.obj_get articlesByBias bias with
    | Some l => l
    | None => []
    end in
  JS.obj_set articlesByBias bias (present ++ [article]).

Definition or_empty {A} (results : option (list A)) : list A :=
  match results with Some l => l | None => [] end.

Definition failed (message : string) : Response :=
  Http.json_error "Failed to fetch story articles" (Http.Message message) 500.

(** The handler: its response and the statements it ran, in order. *)
Definition GET (params_storyId : string) (context : D1.Outcome Env)
  : Response * list Statement :=
  match JS.parseInt params_storyId with
  | None => (Http.json_error "Invalid story ID" Http.NoDetails 400, [])
  | Some storyId =>
      match context with
      | D1.Rejected message => (failed message, [])
      | D1.Resolved env =>
          match DB env with
          | None =>
              (Http.json_error "Database binding not found" Http.NoDetails 500, [])
          | Some db =>
              match storyQuery db storyId with
              | D1.Rejected message => (failed message, [StoryQuery storyId])
              | D1.Resolved None =>
                  (Http.json_error "Story not found" Http.NoDetails 404,
                   [StoryQuery storyId])
              | D1.Resolved (Some storyResult) =>
                  match articlesQuery db storyId with
                  | D1.Rejected message =>
                      (failed message, [StoryQuery storyId; ArticlesQuery storyId])
                  | D1.Resolved articlesResult =>
                      match biasQuery db storyId with
                      | D1.Rejected message =>
                          (failed message,
                           [StoryQuery storyId; ArticlesQuery storyId;
                            BiasQuery storyId])
                      | D1.Resolved biasResult =>
                          let articles := or_empty (D1.results articlesResult) in
                          (Http.json
                             {| story := storyResult;
                                articles := articles;
                                articlesByBias := fold_left by_bias_step articles [];
                                bias_distribution :=
                                  or_empty (D1.results biasResult) |},
                           [StoryQuery storyId; ArticlesQuery storyId;
                            BiasQuery storyId])
                      end
                  end
              end
          end
      end
  end.

(** *** The binding over the tables *)

(** [NULL] sorts below every date. *)
Definition date_ltb (a b : option string) : bool :=
  match a, b with
  | None, None => false
  | None, Some _ => true
  | Some _, None => false
  | Some x, Some y => String.ltb x y
  end.

Definition date_eqb (a b : option string) : bool :=
  match a, b with
  | None, None => true
  | Some x, Some y => String.eqb x y
  | _, _ => false
  end.

(** [y] comes strictly before [x] under
    [ORDER BY published_date DESC, fetched_date DESC]. *)
Definition newer (y x : ArticleRow.t) : bool :=
  date_ltb (ArticleRow.published_date x) (ArticleRow.published_date y)
  || (date_eqb (ArticleRow.published_date x) (ArticleRow.published_date y)
      && String.ltb (ArticleRow.fetched_date x) (ArticleRow.fetched_date y)).

Fixpoint place (x : ArticleRow.t) (s : list ArticleRow.t) : list ArticleRow.t :=
  match s with
  | [] => [x]
  | y :: s' => if newer y x then y :: place x s' else x :: y :: s'
  end.

(** [articles JOIN sources ON source_id = sources.id], for one article. *)
Definition with_source (t : Schema.Tables) (a : Article.t) : list ArticleRow.t :=
  match Schema.source_by_id t (Article.source_id a) with
  | Some s =>
      [{| ArticleRow.id := Article.id a;
          ArticleRow.title := Article.title a;
          ArticleRow.content_snippet := Article.content_snippet a;
          ArticleRow.url := Article.url a;
          ArticleRow.published_date := Article.published_date a;
          ArticleRow.fetched_date := Article.fetched_date a;
          ArticleRow.source_id := Article.source_id a;
          ArticleRow.source_name := Source.name s;
          ArticleRow.source_bias := Source.bias_classification s |}]
  | None => []
  end.

Definition articles_rows (t : Schema.Tables) (storyId : Z) : list ArticleRow.t :=
  fold_right place [] (flat_map (with_source t) (Schema.articles_of t storyId)).

Definition bias_rows (t : Schema.Tables) (storyId : Z) : list (string * Z) :=
  map (fun c => (Coverage.bias_classification c, Coverage.article_count c))
    (Schema.coverage_of t storyId).

(** A database that holds the tables [t] and runs every statement. *)
Definition database (t : Schema.Tables) : Database :=
  {| storyQuery := fun storyId => D1.Resolved (Schema.story_by_id t storyId);
     articlesQuery := fun storyId => D1.rows (articles_rows t storyId);
     biasQuery := fun storyId => D1.rows (bias_rows t storyId) |}.

Definition serving (t : Schema.Tables) : D1.Outcome Env :=
  D1.Resolved {| DB := Some (database t) |}.

End StoryRoute.

(** ** The parameters of a statement *)

Module SQLite.

(** A character of an identifier for the tokenizer: a digit, a letter,
    [_], [$], or a byte above 127. *)
Definition IdChar (c : ascii) : bool :=
  let n := JS.code c in
  ((48 <=? n) && (n <=? 57)) || ((65 <=? n) && (n <=? 90))
  || ((97 <=? n) && (n <=? 122)) || (n =? 95) || (n =? 36) || (128 <=? n).

(** Whether the tokenizer reads [text] as one parameter: [?] followed by
    digits or by nothing, or one of [:], [@] and [$] followed by at least
    one character of an identifier.  A [:] that no such character follows
    is no token, and a statement that holds one is refused when it is
    prepared. *)
Definition is_variable (text : string) : bool :=
  match list_ascii_of_string text with
  | [] => false
  | c :: rest =>
      let n := JS.code c in
      if n =? 63
      then forallb (fun d => match JS.digit d with Some _ => true | None => false end) rest
      else if (n =? 58) || (n =? 64) || (n =? 36)
           then match rest with
                | [] => false
                | _ :: _ => forallb IdChar rest
                end
           else false
  end.

End SQLite.

(** ** [src/app/api/stories/route.ts] *)

Module CoverageRow.
(** A row of the coverage statement.  The text that [JSON_GROUP_OBJECT]
    returns is held by the object that [JSON.parse] makes of it, [None]
    when [JSON.parse] throws. *)
Record t : Type :=
  { story_id : Z;
    bias_distribution : option (JS.object Z);
    total_articles : Z }.
End CoverageRow.

Module Story.
(** A story as it is served, with its bias information. *)
Record t : Type :=
  { id : Z;
    representative_headline : string;
    summary : option string;
    first_seen_date : string;
    last_updated_date : string;
    topic_tags : option string;
    bias_distribution : JS.object Z;
    total_articles : Z }.
End Story.

Module StoriesRoute.

(** The binding, by what it answers to the two statements: the stories
    bound to [limit] and [offset], and the coverage bound to the ids. *)
Record Database : Type :=
  { storiesQuery : option Z -> option Z -> D1.Outcome (D1.Result StoryInfo.t);
    coverageQuery : list Z -> D1.Outcome (D1.Result CoverageRow.t) }.
Record Env : Type := { DB : option Database }.

Definition Response : Type := Http.NextResponse (list Story.t).

Definition limit_of (request : Http.NextRequest) : option Z :=
  JS.parseInt
    (JS.or_default (Http.searchParams_get (Http.searchParams request) "limit") "20").

Definition offset_of (request : Http.NextRequest) : option Z :=
  JS.parseInt
    (JS.or_default (Http.searchParams_get (Http.searchParams request) "offset") "0").

(** The body of [coverageResult.results.forEach]. *)
Definition coverageMap_step (coverageMap : JS.Map (JS.object Z * Z))
  (row : CoverageRow.t) : JS.Map (JS.object Z * Z) :=
  match CoverageRow.bias_distribution row with
  | Some parsedDistribution =>
      JS.Map_set coverageMap (CoverageRow.story_id row)
        (parsedDistribution, CoverageRow.total_articles row)
  | None =>
      JS.Map_set coverageMap (CoverageRow.story_id row)
        ([], CoverageRow.total_articles row)
  end.

(** The body of the loop that combines story data with coverage data. *)
Definition combine_step (coverageMap : JS.Map (JS.object Z * Z))
  (stories : list Story.t) (storyData : StoryInfo.t) : list Story.t :=
  let coverage :=
    match JS.Map_get coverageMap (StoryInfo.id storyData) with
    | Some c => c
    | None => ([], 0)
    end in
  stories ++
  [{| Story.id := StoryInfo.id storyData;
      Story.representative_headline := StoryInfo.representative_headline storyData;
      Story.summary := StoryInfo.summary storyData;
      Story.first_seen_date := StoryInfo.first_seen_date storyData;
      Story.last_updated_date := StoryInfo.last_updated_date storyData;
      Story.topic_tags := StoryInfo.topic_tags storyData;
      Story.bias_distribution := fst coverage;
      Story.total_articles := snd coverage |}].

Definition failed (message : string) : Response :=
  Http.json_error "Failed to fetch stories" (Http.Message message) 500.

Definition GET (request : Http.NextRequest) (context : D1.Outcome Env) : Response :=
  let limit := limit_of request in
  let offset := offset_of request in
  match context with
  | D1.Rejected message => failed message
  | D1.Resolved env =>
      match DB env with
      | None => Http.json_error "Database binding not found" Http.NoDetails 500
      | Some db =>
          match storiesQuery db limit offset with
          | D1.Rejected message => failed message
          | D1.Resolved storiesResult =>
              match D1.results storiesResult with
              | None => Http.json []
              | Some results =>
                  let storyIds := map StoryInfo.id results in
                  match storyIds with
                  | [] => Http.json []
                  | _ :: _ =>
                      match coverageQuery db storyIds with
                      | D1.Rejected message => failed message
                      | D1.Resolved coverageResult =>
                          let coverageMap :=
                            match D1.results coverageResult with
                            | Some rows => fold_left coverageMap_step rows []
                            | None => []
                            end in
                          Http.json (fold_left (combine_step coverageMap) results [])
                      end
                  end
              end
          end
      end
  end.

(** *** The coverage statement and the database *)

(** [storyIds.map (() => ":")], the placeholders that the handler joins
    into the list of [story_id IN (...)]. *)
Definition placeholders (storyIds : list Z) : list string :=
  map (fun _ => ":"%string) storyIds.

(** The binding of a D1 database.  The stories statement, whose two
    placeholders are [?], is answered with the page [page limit offset].
    The coverage statement built for [storyIds] is refused unless each
    placeholder of its list is a parameter; [coverage storyIds] are the
    rows of the statement bound to [storyIds] when it is accepted. *)
Definition d1 (page : option Z -> option Z -> list StoryInfo.t)
  (coverage : list Z -> list CoverageRow.t) : Database :=
  {| storiesQuery := fun limit offset => D1.rows (page limit offset);
     coverageQuery :=
       fun storyIds =>
         if forallb SQLite.is_variable (placeholders storyIds)
         then D1.rows (coverage storyIds)
         else D1.Rejected "D1_ERROR: unrecognized token" |}.

(** The stories that a response serves. *)
Definition stories_of (r : Response) : list Story.t :=
  match Http.body r with
  | Http.Payload l => l
  | Http.Error _ _ => []
  end.

End StoriesRoute.

(** ** Vocabulary of the statements *)

Module Spec.

(** The rows of one story, in the order they were read. *)
Definition rows_of (sid : Z) (rows : list Row.t) : list Row.t :=
  filter (fun r => Row.id r =? sid) rows.

Definition sum_counts (rows : list Row.t) : Z :=
  fold_right (fun r acc => Row.article_count r + acc) 0 rows.

(** Total coverage of a story: the sum of its per-bias article counts. *)
Definition story_total (rows : list Row.t) (sid : Z) : Z :=
  sum_counts (rows_of sid rows).

(** Every bias name of the rows is an ordinary property name. *)
Definition ordinary_biases (rows : list Row.t) : Prop :=
  forall r, In r rows -> Names.ordinary (Row.bias_classification r) = true.

Definition entry_of (r : Row.t) : string * Z :=
  (Row.bias_classification r, Row.article_count r).

Definition sum_values (cov : JS.object Z) : Z :=
  fold_right (fun e acc => snd e + acc) 0 cov.

(** The primary key of [story_coverage], seen through the join with
    [stories] on the stories' primary key. *)
Definition primary_key (rows : list Row.t) : Prop :=
  NoDup (map (fun r => (Row.id r, Row.bias_classification r)) rows).

(** The blindspots of a response, none for an error body. *)
Definition blindspots_of (r : Detector.Response) : list BlindspotStory.t :=
  match Http.body r with
  | Http.Payload l => l
  | Http.Error _ _ => []
  end.

(** Descending order of [dominant_percentage]. *)
Definition percentage_ge (a b : BlindspotStory.t) : Prop :=
  JS.ge (BlindspotStory.dominant_percentage a)
        (BlindspotStory.dominant_percentage b) = true.

(** The order of the bias categories in the schema's comment. *)
Definition canonical_order : list string :=
  ["Gov/Official"; "Regional"; "Independent Local"; "Pan-African";
   "International"; "Western"]%string.

Fixpoint position (b : string) (l : list string) : nat :=
  match l with
  | [] => 0
  | x :: l' => if String.eqb x b then 0 else S (position b l')
  end.

(** A grouping loop whose coverage update is [upd]: both copies of the
    handler are instances. *)
Definition group_row_with (upd : JS.object Z -> Row.t -> JS.object Z)
  (storiesMap : JS.Map StoryData.t) (row : Row.t) : JS.Map StoryData.t :=
  let storiesMap := Detector.ensure storiesMap row in
  match JS.Map_get storiesMap (Row.id row) with
  | Some storyData =>
      JS.Map_set storiesMap (Row.id row)
        {| StoryData.story := StoryData.story storyData;
           StoryData.coverage := upd (StoryData.coverage storyData) row;
           StoryData.total := StoryData.total storyData + Row.article_count row |}
  | None => storiesMap
  end.

Definition overwrite (cov : JS.object Z) (row : Row.t) : JS.object Z :=
  JS.obj_set cov (Row.bias_classification row) (Row.article_count row).

Definition accumulate (cov : JS.object Z) (row : Row.t) : JS.object Z :=
  JS.obj_set cov (Row.bias_classification row)
    (BlindspotsCopy.count_or_0 cov (Row.bias_classification row)
     + BlindspotsCopy.number_or_0 (Row.article_count row)).

(** What one story has become after its rows [l] went through the loop. *)
Definition absorb (upd : JS.object Z -> Row.t -> JS.object Z)
  (l : list Row.t) (d : StoryData.t) : StoryData.t :=
  fold_left
    (fun d r =>
       {| StoryData.story := StoryData.story d;
          StoryData.coverage := upd (StoryData.coverage d) r;
          StoryData.total := StoryData.total d + Row.article_count r |})
    l d.

Definition fresh (row : Row.t) : StoryData.t :=
  {| StoryData.story := Detector.story_of_row row;
     StoryData.coverage := [];
     StoryData.total := 0 |}.

(** The blindspot a story yields when it is kept. *)
Definition candidate (data : StoryData.t) : BlindspotStory.t :=
  Detector.blindspot data
    (fst (Detector.find_dominant (StoryData.coverage data)))
    (Blindspots.dominant_percentage data).

Definition kept (threshold : JS.number) (data : StoryData.t) : bool :=
  negb (StoryData.total data <? 3)
  && JS.ge (Blindspots.dominant_percentage data) threshold.

(** The tie-break by the canonical order: no category with the greatest
    count stands before the dominant bias in the canonical order. *)
Definition ties_by_canonical_order (b : BlindspotStory.t) : Prop :=
  forall bias count,
    In (bias, count) (BlindspotStory.bias_distribution b) ->
    (forall e, In e (BlindspotStory.bias_distribution b) -> snd e <= count) ->
    (position (BlindspotStory.dominant_bias b) canonical_order
     <= position bias canonical_order)%nat.

Definition finite_percentage (b : BlindspotStory.t) : Prop :=
  exists q, BlindspotStory.dominant_percentage b = JS.Fin q.

(** The story [sid] is among the blindspots [l]. *)
Definition included (sid : Z) (l : list BlindspotStory.t) : Prop :=
  exists b, In b l /\ BlindspotStory.id b = sid.

(** The detector over a grouping loop with coverage update [upd]. *)
Definition group_with (upd : JS.object Z -> Row.t -> JS.object Z)
  (rows : list Row.t) : JS.Map StoryData.t :=
  fold_left (group_row_with upd) rows [].

Definition detect_with (upd : JS.object Z -> Row.t -> JS.object Z)
  (limit : option Z) (threshold : JS.number) (rows : list Row.t)
  : list BlindspotStory.t :=
  JS.slice0
    (JS.sort Detector.by_percentage
       (Blindspots.identify threshold (group_with upd rows)))
    limit.

End Spec.

(** ** Sample data *)

Module Sample.

Definition row (id : Z) (bias : string) (count : Z) : Row.t :=
  {| Row.id := id;
     Row.representative_headline := "Flooding hits Mogadishu";
     Row.summary := None;
     Row.first_seen_date := "2025-04-28T12:00:00Z";
     Row.last_updated_date := "2025-04-28T14:30:00Z";
     Row.topic_tags := None;
     Row.bias_classification := bias;
     Row.article_count := count |}.

(** A request without parameters, and requests with one. *)
Definition plain : Http.NextRequest := {| Http.searchParams := [] |}.
Definition with_limit (v : string) : Http.NextRequest :=
  {| Http.searchParams := [("limit"%string, v)] |}.
Definition with_threshold (v : string) : Http.NextRequest :=
  {| Http.searchParams := [("threshold"%string, v)] |}.

(** Nine articles of one bias and one of another. *)
Definition nine_to_one : list Row.t :=
  [row 1 "Gov/Official" 9; row 1 "Independent Local" 1].

(** The same story with two articles only. *)
Definition two_articles : list Row.t := [row 1 "Gov/Official" 2].

(** Seven articles out of ten: the percentage is the default threshold. *)
Definition seven_of_ten : list Row.t :=
  [row 1 "Gov/Official" 7; row 1 "Western" 3].

(** A tie, read in two orders. *)
Definition tie : list Row.t :=
  [row 1 "Independent Local" 2; row 1 "Regional" 2].
Definition tie_swapped : list Row.t :=
  [row 1 "Regional" 2; row 1 "Independent Local" 2].

(** Three stories, two of them blindspots at the default threshold. *)
Definition three_stories : list Row.t :=
  [row 1 "Western" 6; row 1 "Gov/Official" 4;
   row 2 "Western" 4;
   row 3 "Regional" 9; row 3 "Western" 1].

Definition story (id : Z) : StoryInfo.t :=
  {| StoryInfo.id := id;
     StoryInfo.representative_headline := "Flooding hits Mogadishu";
     StoryInfo.summary := None;
     StoryInfo.first_seen_date := "2025-04-28T12:00:00Z";
     StoryInfo.last_updated_date := "2025-04-28T14:30:00Z";
     StoryInfo.topic_tags := None |}.

Definition source (id : Z) (name bias : string) : Source.t :=
  {| Source.id := id;
     Source.name := name;
     Source.url := name;
     Source.rss_url := None;
     Source.bias_classification := bias;
     Source.logo_url := None;
     Source.last_checked := None |}.

Definition article (id source_id : Z) (story_id : option Z) : Article.t :=
  {| Article.id := id;
     Article.source_id := source_id;
     Article.url := "https://sonna.so/en/";
     Article.title := "Mogadishu flooding displaces residents";
     Article.content_snippet := None;
     Article.full_content := None;
     Article.published_date := None;
     Article.fetched_date := "2025-04-28T14:30:00Z";
     Article.story_id := story_id;
     Article.embedding := None |}.

(** Two sources, one story with three articles, one article not yet
    clustered, and no coverage rows yet. *)
Definition tables : Schema.Tables :=
  {| Schema.sources :=
       [source 1 "Horseed Media" "Independent Local";
        source 2 "SONNA" "Gov/Official"];
     Schema.stories := [story 1];
     Schema.articles :=
       [article 1 2 (Some 1); article 2 1 (Some 1); article 3 2 (Some 1);
        article 4 1 None];
     Schema.story_coverage := [] |}.

(** The row that the coverage statement would return for story 1 when
    its three articles are counted: two of a source of one bias, one of a
    source of another. *)
Definition coverage_row : CoverageRow.t :=
  {| CoverageRow.story_id := 1;
     CoverageRow.bias_distribution :=
       Some [("Gov/Official"%string, 2); ("Independent Local"%string, 1)];
     CoverageRow.total_articles := 3 |}.

End Sample.

(** ** [src/components/BiasBar.tsx] *)

Module BiasBar.

(** The default colors of the bias categories. *)
Definition DEFAULT_BIAS_COLORS : JS.object string :=
  [("Gov/Official", "bg-blue-600");
   ("Regional", "bg-green-600");
   ("Independent Local", "bg-yellow-500");
   ("Pan-African", "bg-purple-600");
   ("International", "bg-red-600");
   ("Western", "bg-indigo-600");
   ("Other", "bg-gray-400")]%string.

(** The order for display. *)
Definition BIAS_ORDER : list string :=
  ["Gov/Official"; "Regional"; "Independent Local"; "Pan-African";
   "International"; "Western"; "Other"]%string.

(** [l.indexOf (x)]: the first index of [x], or -1. *)
Fixpoint indexOf (l : list string) (x : string) : Z :=
  match l with
  | [] => -1
  | y :: l' =>
      if String.eqb y x then 0
      else let i := indexOf l' x in if i =? -1 then -1 else i + 1
  end.

(** The comparator of the sort of the keys. *)
Definition compare (a b : string) : JS.number :=
  let indexA := indexOf BIAS_ORDER a in
  let indexB := indexOf BIAS_ORDER b in
  if (indexA =? -1) && (indexB =? -1) then JS.Fin 0
  else if indexA =? -1 then JS.Fin 1
  else if indexB =? -1 then JS.Fin (-1 # 1)
  else JS.Fin (inject_Z (indexA - indexB)).

Definition Object_keys {V} (o : JS.object V) : list string := map fst o.

Definition sortedBiasKeys (biasDistribution : JS.object Z) : list string :=
  JS.sort compare (Object_keys biasDistribution).

(** [v * 100]. *)
Definition times100 (v : JS.number) : JS.number :=
  match v with
  | JS.Fin q => JS.Fin (Qred (q * 100)%Q)
  | other => other
  end.

(** [biasColors[bias] || biasColors['Other']]; [None] is [undefined].
    For a bias that [biasColors] does not inherit ([Names.inherited]): for
    an inherited name that is no own property the read finds the member of
    [Object.prototype]. *)
Definition color (biasColors : JS.object string) (bias : string) : option string :=
  match JS.obj_get biasColors bias with
  | Some c => if String.eqb c "" then JS.obj_get biasColors "Other" else Some c
  | None => JS.obj_get biasColors "Other"
  end.

(** One segment of the bar, by the values its attributes are made of: the
    key, the color class, the width in percent, and the count and the
    plural ending of its title.  The text that [toFixed] makes of the
    percentage in the title is left out. *)
Record Segment : Type :=
  { key : string;
    colorClass : option string;
    width : JS.number;
    count : option Z;
    ending : string }.

Definition segment (biasDistribution : JS.object Z) (totalArticles : Z)
  (biasColors : JS.object string) (bias : string) : Segment :=
  let count := JS.obj_get biasDistribution bias in
  let percentage :=
    match count with
    | Some c => times100 (JS.div c totalArticles)
    | None => JS.NaN
    end in
  {| key := bias;
     colorClass := color biasColors bias;
     width := percentage;
     count := count;
     ending := match count with
               | Some 1 => ""
               | _ => "s"
               end |}.

Inductive Rendered : Type :=
| EmptyState
| Bar (segments : list Segment).

(** The component with the colors given. *)
Definition render (biasDistribution : JS.object Z) (totalArticles : Z)
  (biasColors : JS.object string) : Rendered :=
  if totalArticles =? 0 then EmptyState
  else Bar (map (segment biasDistribution totalArticles biasColors)
              (sortedBiasKeys biasDistribution)).

(** The component with the default colors. *)
Definition BiasBar (biasDistribution : JS.object Z) (totalArticles : Z)
  : Rendered :=
  render biasDistribution totalArticles DEFAULT_BIAS_COLORS.

End BiasBar.

(** ** [src/components/StoryCard.tsx] *)

Module StoryCard.

(** [s.split (sep)] on the characters of [s]. *)
Fixpoint split (sep : ascii) (cs : list ascii) : list (list ascii) :=
  match cs with
  | [] => [[]]
  | c :: rest =>
      if Ascii.eqb c sep then [] :: split sep rest
      else match split sep rest with
           | piece :: pieces => (c :: piece) :: pieces
           | [] => [[c]]
           end
  end.

(** [s.trim ()]. *)
Definition trim (cs : list ascii) : list ascii :=
  rev (JS.trimStart (rev (JS.trimStart cs))).

Definition nonempty (cs : list ascii) : bool :=
  match cs with [] => false | _ :: _ => true end.

(** [topic_tags.split (',').map (tag => tag.trim ()).filter (tag => tag)]. *)
Definition tag_list (topic_tags : string) : list string :=
  map string_of_list_ascii
    (filter nonempty
       (map trim (split "," (list_ascii_of_string topic_tags)))).

(** The tags of the card; [None] when [story.topic_tags] is [null] or
    empty and the tags are not rendered. *)
Definition tags (topic_tags : option string) : option (list string) :=
  match topic_tags with
  | Some s => if String.eqb s "" then None else Some (tag_list s)
  | None => None
  end.

(** The summary of the card, when it is rendered. *)
Definition summary (s : option string) : option string :=
  match s with
  | Some text => if String.eqb text "" then None else Some text
  | None => None
  end.

(** The ending of "Source" after the number of articles. *)
Definition sources_ending (total_articles : Z) : string :=
  if total_articles =? 1 then "" else "s".

(** The card of a served story, by the parts that are computed: the id of
    its link, its bias bar, its headline, its summary, the number of
    sources with its ending, and its tags.  The date, which
    [toLocaleDateString] formats, is left out. *)
Record Card : Type :=
  { link : Z;
    bar : BiasBar.Rendered;
    headline : string;
    shown_summary : option string;
    sources : Z * string;
    shown_tags : option (list string) }.

Definition StoryCard (story : Story.t) : Card :=
  {| link := Story.id story;
     bar := BiasBar.BiasBar (Story.bias_distribution story)
              (Story.total_articles story);
     headline := Story.representative_headline story;
     shown_summary := summary (Story.summary story);
     sources := (Story.total_articles story,
                 sources_ending (Story.total_articles story));
     shown_tags := tags (Story.topic_tags story) |}.

End StoryCard.

(** ** The sources route: POST *)

Module SourcesRoute.

(** The members of the body that the handler reads; a member that is
    absent or [null] is [None], the others are strings. *)
Record Body : Type :=
  { name : option string;
    url : option string;
    rss_url : option string;
    bias_classification : option string;
    logo_url : option string }.

(** [v || null]: the string when it is not empty. *)
Definition or_null (v : option string) : option string :=
  match v with
  | Some s => if String.eqb s "" then None else Some s
  | None => None
  end.

(** The table [sources] and the greatest row id it has ever given, which
    [AUTOINCREMENT] keeps. *)
Record Database : Type :=
  { sources : list Source.t;
    sequence : Z }.
Record Env : Type := { DB : option Database }.

(** [SELECT id FROM sources WHERE url = ?], first row. *)
Definition existing (db : Database) (u : string) : option Z :=
  option_map Source.id
    (find (fun s => String.eqb (Source.url s) u) (sources db)).

(** [UPDATE sources SET name = ?, rss_url = ?, bias_classification = ?,
    logo_url = ? WHERE id = ?]. *)
Definition update (db : Database) (n : string) (rss : option string)
  (bias : string) (logo : option string) (i : Z) : Database :=
  {| sources :=
       map (fun s =>
              if Source.id s =? i then
                {| Source.id := Source.id s;
                   Source.name := n;
                   Source.url := Source.url s;
                   Source.rss_url := rss;
                   Source.bias_classification := bias;
                   Source.logo_url := logo;
                   Source.last_checked := Source.last_checked s |}
              else s)
         (sources db);
     sequence := sequence db |}.

(** The row id that [AUTOINCREMENT] gives next: one more than the greatest
    id of the table and of the sequence. *)
Definition next_id (db : Database) : Z :=
  1 + fold_right Z.max (sequence db) (map Source.id (sources db)).

(** [INSERT INTO sources (name, url, rss_url, bias_classification,
    logo_url, last_checked) VALUES (?, ?, ?, ?, ?, NULL)], with the row id
    of the new row. *)
Definition insert (db : Database) (n u : string) (rss : option string)
  (bias : string) (logo : option string) : Database * Z :=
  let i := next_id db in
  ({| sources :=
        sources db ++
        [{| Source.id := i;
            Source.name := n;
            Source.url := u;
            Source.rss_url := rss;
            Source.bias_classification := bias;
            Source.logo_url := logo;
            Source.last_checked := None |}];
      sequence := i |}, i).

(** The body of a successful response. *)
Record Saved : Type :=
  { success : bool;
    message : string;
    sourceId : Z }.

Definition Response : Type := Http.NextResponse Saved.

Definition failed (message : string) : Response :=
  Http.json_error "Failed to add/update source" (Http.Message message) 500.

(** The handler: its response and the database it leaves.  [body] is what
    [request.json ()] returns or throws; the statements are run by a
    database that holds the table. *)
Definition POST (body : D1.Outcome Body) (context : D1.Outcome Env)
  : Response * D1.Outcome Env :=
  match body with
  | D1.Rejected e => (failed e, context)
  | D1.Resolved body =>
      match or_null (name body), or_null (url body),
            or_null (bias_classification body) with
      | Some n, Some u, Some bias =>
          match context with
          | D1.Rejected e => (failed e, context)
          | D1.Resolved env =>
              match DB env with
              | None =>
                  (Http.json_error "Database binding not found"
                     Http.NoDetails 500, context)
              | Some db =>
                  match existing db u with
                  | Some i =>
                      (Http.json {| success := true;
                                    message := "Source updated";
                                    sourceId := i |},
                       D1.Resolved
                         {| DB := Some (update db n (or_null (rss_url body)) bias
                                          (or_null (logo_url body)) i) |})
                  | None =>
                      let '(db', i) :=
                        insert db n u (or_null (rss_url body)) bias
                          (or_null (logo_url body)) in
                      (Http.json {| success := true;
                                    message := "Source added";
                                    sourceId := i |},
                       D1.Resolved {| DB := Some db' |})
                  end
              end
          end
      | _, _, _ =>
          (Http.json_error "Missing required fields" Http.NoDetails 400, context)
      end
  end.

(** The database that a handler leaves, when there is one. *)
Definition database_of (context : D1.Outcome Env) : option Database :=
  match context with
  | D1.Resolved env => DB env
  | D1.Rejected _ => None
  end.

Definition holding (db : Database) : D1.Outcome Env :=
  D1.Resolved {| DB := Some db |}.

(** The first source with a url. *)
Definition by_url (db : Database) (u : string) : option Source.t :=
  find (fun s => String.eqb (Source.url s) u) (sources db).

End SourcesRoute.

(** ** Vocabulary of the further statements *)

Module More.

(** No coverage row has a negative count. *)
Definition nonneg_counts (rows : list Row.t) : Prop :=
  forall r, In r rows -> 0 <= Row.article_count r.

(** The greatest count of a coverage, 0 when no count is positive. *)
Definition max_count (cov : JS.object Z) : Z :=
  fold_left (fun m e => Z.max m (snd e)) cov 0.

(** The story [sid] is flagged with percentage [p] and total [total]. *)
Definition flagged (t : JS.number) (rows : list Row.t) (sid : Z)
  (p : JS.number) (total : Z) : Prop :=
  exists b,
    In b (Blindspots.identify t (Blindspots.group rows))
    /\ BlindspotStory.id b = sid
    /\ BlindspotStory.dominant_percentage b = p
    /\ BlindspotStory.total_articles b = total.

(** The articles of a list whose source has the bias [bias]. *)
Definition with_bias (bias : string) (articles : list ArticleRow.t)
  : list ArticleRow.t :=
  filter (fun a => String.eqb (ArticleRow.source_bias a) bias) articles.





(** The place of a key in the display: its index in [BIAS_ORDER], and the
    length of [BIAS_ORDER] for a key that is not in it. *)
Definition rank (k : string) : nat :=
  let i := BiasBar.indexOf BiasBar.BIAS_ORDER k in
  if i =? -1 then List.length BiasBar.BIAS_ORDER else Z.to_nat i.

(** The keys that are not in [BIAS_ORDER]. *)
Definition unknown (k : string) : bool :=
  BiasBar.indexOf BiasBar.BIAS_ORDER k =? -1.

(** A tag as the card shows it: not empty, without a comma, and without
    white space at its ends. *)
Definition clean (tag : string) : Prop :=
  let cs := list_ascii_of_string tag in
  cs <> [] /\ ~ In ","%char cs /\ StoryCard.trim cs = cs.

End More.

(** * Properties *)

(** ** The built-ins on sample values *)

Example parseInt_digits : JS.parseInt "10" = Some 10.
Proof. reflexivity. Qed.

Example parseInt_prefix : JS.parseInt "  -12abc" = Some (-12).
Proof. reflexivity. Qed.

Example parseInt_fraction : JS.parseInt "3.7" = Some 3.
Proof. reflexivity. Qed.

Example parseInt_NaN : JS.parseInt "abc" = None /\ JS.parseInt "" = None.
Proof. split; reflexivity. Qed.

Example parseFloat_default : JS.parseFloat "0.7" = JS.Fin (7 # 10).
Proof. reflexivity. Qed.

Example parseFloat_exponent : JS.parseFloat "-.5e-1xyz" = JS.Fin (-1 # 20).
Proof. reflexivity. Qed.

Example parseFloat_dot : JS.parseFloat "1.e3" = JS.Fin 1000 /\ JS.parseFloat "." = JS.NaN.
Proof. split; reflexivity. Qed.

Example parseFloat_Infinity : JS.parseFloat "-Infinity" = JS.NegInf.
Proof. reflexivity. Qed.

Example div_values :
  JS.div 9 10 = JS.Fin (9 # 10) /\ JS.div 1 0 = JS.PosInf /\ JS.div 0 0 = JS.NaN.
Proof. repeat split; reflexivity. Qed.

Example slice0_values :
  JS.slice0 [1; 2; 3; 4; 5] (Some 2) = [1; 2]
  /\ JS.slice0 [1; 2; 3; 4; 5] (Some (-1)) = [1; 2; 3; 4]
  /\ JS.slice0 [1; 2; 3; 4; 5] (Some 9) = [1; 2; 3; 4; 5]
  /\ JS.slice0 [1; 2; 3; 4; 5] None = [].
Proof. repeat split; reflexivity. Qed.

Example sort_stable :
  JS.sort (fun a b => JS.sub (JS.Fin (inject_Z (fst b))) (JS.Fin (inject_Z (fst a))))
    [(1, "a"); (3, "b"); (2, "c"); (3, "d"); (1, "e")]%string
  = [(3, "b"); (3, "d"); (2, "c"); (1, "a"); (1, "e")]%string.
Proof. reflexivity. Qed.

Example object_order :
  JS.obj_set (JS.obj_set (JS.obj_set [] "Western" 1) "Regional" 2) "Western" 5
  = [("Western"%string, 5); ("Regional"%string, 2)].
Proof. reflexivity. Qed.

(** ** Numbers *)

Lemma ge_Fin_refl (q : Q) : JS.ge (JS.Fin q) (JS.Fin q) = true.
Proof. simpl. apply Qle_bool_iff. apply Qle_refl. Qed.

Lemma ge_le_trans (p t1 t2 : JS.number) :
  JS.ge p t2 = true -> JS.le t1 t2 = true -> JS.ge p t1 = true.
Proof.
  unfold JS.le.
  destruct p, t1, t2; simpl; try congruence.
  rewrite !Qle_bool_iff. intros. eapply Qle_trans; eauto.
Qed.

Lemma div_finite (a b : Z) :
  b <> 0 -> JS.div a b = JS.Fin (Qred (inject_Z a / inject_Z b)).
Proof.
  intros Hb. unfold JS.div.
  destruct (Z.eqb_spec b 0); [contradiction | reflexivity].
Qed.

(** A kept percentage comes strictly before a dropped one. *)
Lemma gt0_sub_split (p q : Q) (t : JS.number) :
  JS.ge (JS.Fin p) t = true -> JS.ge (JS.Fin q) t = false ->
  JS.gt0 (JS.sub (JS.Fin p) (JS.Fin q)) = true
  /\ JS.gt0 (JS.sub (JS.Fin q) (JS.Fin p)) = false.
Proof.
  destruct t; simpl; try congruence.
  intros Hp Hq.
  apply Qle_bool_iff in Hp.
  assert (Hlt : (q < q0)%Q).
  { apply Qnot_le_lt. intros H. apply Qle_bool_iff in H. congruence. }
  split.
  - apply negb_true_iff. apply not_true_is_false. intros H.
    apply Qle_bool_iff in H. lra.
  - apply negb_false_iff. apply Qle_bool_iff. lra.
Qed.

(** ** Insertion-ordered maps *)

Section OrderedFacts.
Context {K V : Type} (eqb : K -> K -> bool).
Hypothesis eqb_eq : forall a b, eqb a b = true <-> a = b.

Lemma eqb_refl' (a : K) : eqb a a = true.
Proof. now apply eqb_eq. Qed.

Lemma eqb_neq (a b : K) : a <> b -> eqb a b = false.
Proof.
  intros H. destruct (eqb a b) eqn:E; [| reflexivity].
  apply eqb_eq in E. contradiction.
Qed.

Lemma lookup_store (m : list (K * V)) (k k' : K) (v : V) :
  JS.lookup eqb (JS.store eqb m k v) k'
  = if eqb k k' then Some v else JS.lookup eqb m k'.
Proof.
  induction m as [| [k0 v0] m IH]; simpl.
  - reflexivity.
  - destruct (eqb k0 k) eqn:E0; simpl.
    + apply eqb_eq in E0. subst k0.
      destruct (eqb k k'); reflexivity.
    + rewrite IH. destruct (eqb k0 k') eqn:E1; [| reflexivity].
      apply eqb_eq in E1. subst k0.
      destruct (eqb k k') eqn:E2; [| reflexivity].
      apply eqb_eq in E2. subst k'. rewrite eqb_refl' in E0. discriminate.
Qed.

Lemma store_fresh (m : list (K * V)) (k : K) (v : V) :
  JS.lookup eqb m k = None -> JS.store eqb m k v = m ++ [(k, v)].
Proof.
  induction m as [| [k0 v0] m IH]; simpl; intros H.
  - reflexivity.
  - destruct (eqb k0 k); [discriminate |]. now rewrite IH.
Qed.

Lemma keys_store_present (m : list (K * V)) (k : K) (v : V) :
  JS.lookup eqb m k <> None -> map fst (JS.store eqb m k v) = map fst m.
Proof.
  induction m as [| [k0 v0] m IH]; simpl; intros H.
  - congruence.
  - destruct (eqb k0 k) eqn:E; simpl.
    + apply eqb_eq in E. now subst.
    + now rewrite IH.
Qed.

Lemma lookup_None_keys (m : list (K * V)) (k : K) :
  JS.lookup eqb m k = None <-> ~ In k (map fst m).
Proof.
  induction m as [| [k0 v0] m IH]; simpl.
  - tauto.
  - destruct (eqb k0 k) eqn:E.
    + apply eqb_eq in E. split; [discriminate | tauto].
    + rewrite IH. split.
      * intros H [H0 | H0]; [| tauto].
        subst. rewrite eqb_refl' in E. discriminate.
      * tauto.
Qed.

Lemma keys_store_NoDup (m : list (K * V)) (k : K) (v : V) :
  NoDup (map fst m) -> NoDup (map fst (JS.store eqb m k v)).
Proof.
  intros Hnd. destruct (JS.lookup eqb m k) eqn:E.
  - rewrite keys_store_present; [assumption | congruence].
  - rewrite store_fresh by assumption. rewrite map_app. simpl.
    apply NoDup_app_remove_l with (l := []). simpl.
    apply Permutation_NoDup with (l := k :: map fst m).
    + apply Permutation_cons_append.
    + constructor; [now apply lookup_None_keys | assumption].
Qed.

Lemma lookup_In (m : list (K * V)) (k : K) (v : V) :
  JS.lookup eqb m k = Some v -> In (k, v) m.
Proof.
  induction m as [| [k0 v0] m IH]; simpl; [discriminate |].
  destruct (eqb k0 k) eqn:E.
  - apply eqb_eq in E. intros [= ->]. subst. now left.
  - intros H. right. auto.
Qed.

Lemma In_lookup (m : list (K * V)) (k : K) (v : V) :
  NoDup (map fst m) -> In (k, v) m -> JS.lookup eqb m k = Some v.
Proof.
  induction m as [| [k0 v0] m IH]; simpl; [tauto |].
  intros Hnd [H | H].
  - injection H as -> ->. now rewrite eqb_refl'.
  - inversion Hnd as [| ? ? Hnotin Hnd']; subst.
    destruct (eqb k0 k) eqn:E.
    + apply eqb_eq in E. subst k0. exfalso. apply Hnotin.
      apply in_map_iff. now exists (k, v).
    + auto.
Qed.

End OrderedFacts.

(** ** The grouping loop *)

Lemma Z_eqb_eq (a b : Z) : (a =? b) = true <-> a = b.
Proof. apply Z.eqb_eq. Qed.

Lemma number_or_0_id (x : Z) : BlindspotsCopy.number_or_0 x = x.
Proof.
  unfold BlindspotsCopy.number_or_0.
  destruct (Z.eqb_spec x 0); congruence.
Qed.

Lemma group_row_overwrite (m : JS.Map StoryData.t) (r : Row.t) :
  Blindspots.group_row m r = Spec.group_row_with Spec.overwrite m r.
Proof. reflexivity. Qed.

Lemma group_row_accumulate (m : JS.Map StoryData.t) (r : Row.t) :
  BlindspotsCopy.group_row m r = Spec.group_row_with Spec.accumulate m r.
Proof.
  unfold BlindspotsCopy.group_row, Spec.group_row_with, Spec.accumulate.
  destruct (JS.Map_get _ _); [| reflexivity].
  now rewrite !number_or_0_id.
Qed.

Lemma fold_left_ext {A B : Type} (f g : A -> B -> A) (l : list B) (a : A) :
  (forall x y, f x y = g x y) -> fold_left f l a = fold_left g l a.
Proof.
  intros H. revert a. induction l as [| y l IH]; simpl; intros a.
  - reflexivity.
  - now rewrite H, IH.
Qed.

Lemma group_overwrite (rows : list Row.t) :
  Blindspots.group rows = fold_left (Spec.group_row_with Spec.overwrite) rows [].
Proof. reflexivity. Qed.

Lemma group_accumulate (rows : list Row.t) :
  BlindspotsCopy.group rows
  = fold_left (Spec.group_row_with Spec.accumulate) rows [].
Proof. apply fold_left_ext. apply group_row_accumulate. Qed.

Section Grouping.
Variable upd : JS.object Z -> Row.t -> JS.object Z.

Lemma group_row_with_get (m : JS.Map StoryData.t) (r : Row.t) (k : Z) :
  JS.Map_get (Spec.group_row_with upd m r) k
  = if Row.id r =? k
    then Some (Spec.absorb upd [r]
                 (match JS.Map_get m (Row.id r) with
                  | Some d => d
                  | None => Spec.fresh r
                  end))
    else JS.Map_get m k.
Proof.
  unfold Spec.group_row_with, Detector.ensure, JS.Map_has, JS.member,
    JS.Map_get, JS.Map_set.
  destruct (JS.lookup Z.eqb m (Row.id r)) as [d |] eqn:E.
  - rewrite E. now rewrite (lookup_store Z.eqb Z_eqb_eq).
  - rewrite (lookup_store Z.eqb Z_eqb_eq), Z.eqb_refl.
    rewrite !(lookup_store Z.eqb Z_eqb_eq).
    destruct (Row.id r =? k); [reflexivity | reflexivity].
Qed.

Lemma group_row_with_NoDup (m : JS.Map StoryData.t) (r : Row.t) :
  NoDup (map fst m) -> NoDup (map fst (Spec.group_row_with upd m r)).
Proof.
  intros H. unfold Spec.group_row_with.
  assert (He : NoDup (map fst (Detector.ensure m r))).
  { unfold Detector.ensure. destruct (JS.Map_has m (Row.id r)); [assumption |].
    now apply (keys_store_NoDup Z.eqb Z_eqb_eq). }
  destruct (JS.Map_get _ _); [| assumption].
  now apply (keys_store_NoDup Z.eqb Z_eqb_eq).
Qed.

Lemma group_with_NoDup (rows : list Row.t) (m : JS.Map StoryData.t) :
  NoDup (map fst m) ->
  NoDup (map fst (fold_left (Spec.group_row_with upd) rows m)).
Proof.
  revert m. induction rows as [| r rows IH]; simpl; intros m H.
  - assumption.
  - apply IH. now apply group_row_with_NoDup.
Qed.

(** The entry of story [k] after the loop: its rows, absorbed in order by
    the entry it had before, or by a fresh one made from its first row. *)
Lemma group_with_get (rows : list Row.t) (m : JS.Map StoryData.t) (k : Z) :
  JS.Map_get (fold_left (Spec.group_row_with upd) rows m) k
  = match Spec.rows_of k rows with
    | [] => JS.Map_get m k
    | r0 :: _ =>
        Some (Spec.absorb upd (Spec.rows_of k rows)
                (match JS.Map_get m k with
                 | Some d => d
                 | None => Spec.fresh r0
                 end))
    end.
Proof.
  revert m. induction rows as [| r rows IH]; simpl; intros m.
  - reflexivity.
  - rewrite IH, group_row_with_get.
    destruct (Z.eqb_spec (Row.id r) k) as [-> | Hne].
    + destruct (Spec.rows_of k rows); reflexivity.
    + reflexivity.
Qed.

Lemma absorb_total (l : list Row.t) (d : StoryData.t) :
  StoryData.total (Spec.absorb upd l d) = StoryData.total d + Spec.sum_counts l.
Proof.
  revert d. induction l as [| r l IH]; simpl; intros d.
  - lia.
  - unfold Spec.absorb in *. simpl. rewrite IH. simpl. lia.
Qed.

Lemma absorb_story (l : list Row.t) (d : StoryData.t) :
  StoryData.story (Spec.absorb upd l d) = StoryData.story d.
Proof.
  revert d. induction l as [| r l IH]; simpl; intros d.
  - reflexivity.
  - unfold Spec.absorb in *. simpl. now rewrite IH.
Qed.

Lemma absorb_coverage (l : list Row.t) (d : StoryData.t) :
  StoryData.coverage (Spec.absorb upd l d)
  = fold_left upd l (StoryData.coverage d).
Proof.
  revert d. induction l as [| r l IH]; simpl; intros d.
  - reflexivity.
  - unfold Spec.absorb in *. simpl. now rewrite IH.
Qed.

Lemma rows_of_head (k : Z) (rows : list Row.t) (r0 : Row.t) (l : list Row.t) :
  Spec.rows_of k rows = r0 :: l -> Row.id r0 = k.
Proof.
  intros H. assert (Hin : In r0 (Spec.rows_of k rows)) by (rewrite H; now left).
  apply filter_In in Hin. now apply Z.eqb_eq.
Qed.

(** An entry of the map built from the rows: its key is the story's id and
    its total is the sum of the story's counts. *)
Lemma group_with_entry (rows : list Row.t) (k : Z) (d : StoryData.t) :
  In (k, d) (fold_left (Spec.group_row_with upd) rows []) ->
  StoryInfo.id (StoryData.story d) = k
  /\ StoryData.total d = Spec.story_total rows k
  /\ StoryData.coverage d = fold_left upd (Spec.rows_of k rows) []
  /\ Spec.rows_of k rows <> [].
Proof.
  intros Hin.
  apply (In_lookup Z.eqb Z_eqb_eq) in Hin;
    [| apply group_with_NoDup; constructor].
  change (JS.lookup Z.eqb) with (@JS.Map_get StoryData.t) in Hin.
  rewrite group_with_get in Hin. unfold Spec.story_total.
  destruct (Spec.rows_of k rows) as [| r0 l] eqn:E; [discriminate |].
  simpl JS.Map_get in Hin. injection Hin as <-.
  rewrite absorb_story, absorb_total, absorb_coverage. simpl.
  repeat split; try congruence.
  now apply rows_of_head in E.
Qed.

Lemma group_with_present (rows : list Row.t) (k : Z) :
  Spec.rows_of k rows <> [] ->
  exists d, In (k, d) (fold_left (Spec.group_row_with upd) rows []).
Proof.
  intros H.
  destruct (JS.Map_get (fold_left (Spec.group_row_with upd) rows []) k)
    as [d |] eqn:E.
  - exists d. now apply (lookup_In Z.eqb Z_eqb_eq).
  - rewrite group_with_get in E.
    destruct (Spec.rows_of k rows); [contradiction | discriminate].
Qed.

End Grouping.

(** ** The loop that identifies blindspots *)

Lemma total_guard (data : StoryData.t) :
  (StoryData.total data <? 3) = false ->
  3 <= StoryData.total data /\ (StoryData.total data >? 0) = true.
Proof.
  intros H. apply Z.ltb_ge in H. split; [assumption |].
  apply Z.gtb_lt. lia.
Qed.

Lemma identify_entry_kept (threshold : JS.number)
  (acc : list BlindspotStory.t) (e : Z * StoryData.t) :
  Blindspots.identify_entry threshold acc e
  = acc ++ (if Spec.kept threshold (snd e) then [Spec.candidate (snd e)] else []).
Proof.
  unfold Blindspots.identify_entry, Spec.kept, Spec.candidate.
  destruct (StoryData.total (snd e) <? 3); simpl.
  - now rewrite app_nil_r.
  - destruct (JS.ge _ _); [reflexivity | now rewrite app_nil_r].
Qed.

Lemma identify_entry_copy (threshold : JS.number)
  (acc : list BlindspotStory.t) (e : Z * StoryData.t) :
  BlindspotsCopy.identify_entry threshold acc e
  = Blindspots.identify_entry threshold acc e.
Proof.
  unfold BlindspotsCopy.identify_entry, Blindspots.identify_entry.
  destruct (StoryData.total (snd e) <? 3) eqn:E; [reflexivity |].
  apply total_guard in E. destruct E as [_ E].
  unfold BlindspotsCopy.dominant_percentage, Blindspots.dominant_percentage.
  now rewrite E.
Qed.

Lemma identify_copy (threshold : JS.number) (m : JS.Map StoryData.t) :
  BlindspotsCopy.identify threshold m = Blindspots.identify threshold m.
Proof. apply fold_left_ext. apply identify_entry_copy. Qed.

Lemma identify_fold (threshold : JS.number) (m : JS.Map StoryData.t)
  (acc : list BlindspotStory.t) :
  fold_left (Blindspots.identify_entry threshold) m acc
  = acc ++ map (fun e => Spec.candidate (snd e))
             (filter (fun e => Spec.kept threshold (snd e)) m).
Proof.
  revert acc. induction m as [| e m IH]; simpl; intros acc.
  - now rewrite app_nil_r.
  - rewrite IH, identify_entry_kept.
    destruct (Spec.kept threshold (snd e)); simpl.
    + now rewrite <- app_assoc.
    + now rewrite app_nil_r.
Qed.

(** The blindspots before sorting: the kept stories, in map order. *)
Lemma identify_filter (threshold : JS.number) (m : JS.Map StoryData.t) :
  Blindspots.identify threshold m
  = map (fun e => Spec.candidate (snd e))
      (filter (fun e => Spec.kept threshold (snd e)) m).
Proof. unfold Blindspots.identify, JS.Map_entries. now rewrite identify_fold. Qed.

Lemma identify_In (threshold : JS.number) (m : JS.Map StoryData.t)
  (b : BlindspotStory.t) :
  In b (Blindspots.identify threshold m)
  <-> exists k d, In (k, d) m /\ Spec.kept threshold d = true
                  /\ b = Spec.candidate d.
Proof.
  rewrite identify_filter, in_map_iff. split.
  - intros [[k d] [Hb Hin]]. apply filter_In in Hin. simpl in *.
    exists k, d. intuition congruence.
  - intros [k [d [Hin [Hk Hb]]]]. exists (k, d). split; [now subst |].
    apply filter_In. now split.
Qed.

(** Every percentage that is computed is a finite number. *)
Lemma kept_finite (threshold : JS.number) (d : StoryData.t) :
  Spec.kept threshold d = true ->
  exists q, BlindspotStory.dominant_percentage (Spec.candidate d) = JS.Fin q.
Proof.
  unfold Spec.kept. intros H. apply andb_true_iff in H. destruct H as [H _].
  apply negb_true_iff, total_guard in H. destruct H as [H _].
  simpl. unfold Blindspots.dominant_percentage.
  rewrite div_finite by lia. eauto.
Qed.

Lemma identify_finite (threshold : JS.number) (m : JS.Map StoryData.t) :
  Forall Spec.finite_percentage (Blindspots.identify threshold m).
Proof.
  apply Forall_forall. intros b Hb. apply identify_In in Hb.
  destruct Hb as [k [d [_ [Hk ->]]]]. eapply kept_finite; eauto.
Qed.

(** ** Sorting and slicing *)

Section SortFacts.
Context {A : Type} (cmp : A -> A -> JS.number).

Lemma insert_perm (x : A) (s : list A) : Permutation (x :: s) (JS.insert cmp x s).
Proof.
  induction s as [| y s IH]; simpl.
  - apply Permutation_refl.
  - destruct (JS.gt0 (cmp x y)).
    + eapply perm_trans; [apply perm_swap |]. now apply perm_skip.
    + apply Permutation_refl.
Qed.

Lemma sort_perm (l : list A) : Permutation l (JS.sort cmp l).
Proof.
  induction l as [| x l IH]; simpl.
  - apply perm_nil.
  - eapply perm_trans; [| apply insert_perm]. now apply perm_skip.
Qed.

Lemma sort_In (l : list A) (x : A) : In x (JS.sort cmp l) <-> In x l.
Proof.
  split; apply Permutation_in;
    [apply Permutation_sym |]; apply sort_perm.
Qed.

Lemma sort_length (l : list A) : List.length (JS.sort cmp l) = List.length l.
Proof. symmetry. apply Permutation_length, sort_perm. Qed.

(** [x] stays in front of a tail that does not come strictly first. *)
Lemma insert_app_stop (x : A) (s t : list A) :
  (forall y, In y t -> JS.gt0 (cmp x y) = false) ->
  JS.insert cmp x (s ++ t) = JS.insert cmp x s ++ t.
Proof.
  intros H. induction s as [| y s IH]; simpl.
  - destruct t as [| y t]; simpl; [reflexivity |].
    now rewrite H by (now left).
  - destruct (JS.gt0 (cmp x y)); simpl; [now rewrite IH | reflexivity].
Qed.

(** [x] passes a front that comes strictly first. *)
Lemma insert_app_pass (x : A) (s t : list A) :
  (forall y, In y s -> JS.gt0 (cmp x y) = true) ->
  JS.insert cmp x (s ++ t) = s ++ JS.insert cmp x t.
Proof.
  intros H. induction s as [| y s IH]; simpl.
  - reflexivity.
  - rewrite H by (now left). rewrite IH; [reflexivity |].
    intros z Hz. apply H. now right.
Qed.

End SortFacts.

Lemma firstn_subset {A} (n : nat) (l : list A) (x : A) :
  In x (firstn n l) -> In x l.
Proof.
  intros H. rewrite <- (firstn_skipn n l). apply in_or_app. now left.
Qed.

Lemma slice0_In {A} (l : list A) (end_ : option Z) (x : A) :
  In x (JS.slice0 l end_) -> In x l.
Proof. unfold JS.slice0. apply firstn_subset. Qed.

Lemma slice0_nonneg {A} (l : list A) (n : Z) :
  0 <= n -> JS.slice0 l (Some n) = firstn (Z.to_nat n) l.
Proof.
  intros Hn. unfold JS.slice0.
  destruct (Z.ltb_spec n 0); [lia |].
  destruct (Z.le_ge_cases n (Z.of_nat (List.length l))) as [H1 | H1].
  - now rewrite Z.min_l.
  - rewrite Z.min_r by lia. rewrite Nat2Z.id.
    rewrite !firstn_all2; [reflexivity | lia | lia].
Qed.

Lemma slice0_length {A} (l : list A) (n : Z) :
  0 <= n -> Z.of_nat (List.length (JS.slice0 l (Some n))) <= n.
Proof.
  intros Hn. rewrite slice0_nonneg by assumption.
  rewrite length_firstn. lia.
Qed.

Lemma slice0_all {A} (l : list A) (n : Z) :
  Z.of_nat (List.length l) <= n -> JS.slice0 l (Some n) = l.
Proof.
  intros Hn. rewrite slice0_nonneg by lia. apply firstn_all2. lia.
Qed.

(** A slice from 0 is a prefix. *)
Lemma slice0_prefix {A} (l : list A) (end_ : option Z) :
  exists n, JS.slice0 l end_ = firstn n l.
Proof. unfold JS.slice0. eauto. Qed.

(** ** The detector as a whole *)

Lemma detect_overwrite (limit : option Z) (t : JS.number) (rows : list Row.t) :
  Blindspots.detect limit t rows = Spec.detect_with Spec.overwrite limit t rows.
Proof. reflexivity. Qed.

Lemma detect_accumulate (limit : option Z) (t : JS.number) (rows : list Row.t) :
  BlindspotsCopy.detect limit t rows
  = Spec.detect_with Spec.accumulate limit t rows.
Proof.
  unfold BlindspotsCopy.detect, Spec.detect_with, Spec.group_with.
  now rewrite identify_copy, group_accumulate.
Qed.

Lemma GET_serving (request : Http.NextRequest) (rows : list Row.t) :
  Blindspots.GET request (Detector.serving rows)
  = Http.json (Blindspots.detect (Detector.limit_of request)
                 (Detector.threshold_of request) rows).
Proof.
  unfold Blindspots.GET. simpl. destruct rows as [| r rows]; [| reflexivity].
  unfold Blindspots.detect, JS.slice0. simpl. now rewrite firstn_nil.
Qed.

Lemma GET_copy_serving (request : Http.NextRequest) (rows : list Row.t) :
  BlindspotsCopy.GET request (Detector.serving rows)
  = Http.json (BlindspotsCopy.detect (Detector.limit_of request)
                 (Detector.threshold_of request) rows).
Proof.
  unfold BlindspotsCopy.GET. simpl. destruct rows as [| r rows]; [| reflexivity].
  unfold BlindspotsCopy.detect, JS.slice0. simpl. now rewrite firstn_nil.
Qed.

Section DetectWith.
Variable upd : JS.object Z -> Row.t -> JS.object Z.

Lemma group_with_keys_NoDup (rows : list Row.t) :
  NoDup (map fst (Spec.group_with upd rows)).
Proof. apply group_with_NoDup. constructor. Qed.

Lemma group_with_total (rows : list Row.t) (k : Z) (d : StoryData.t) :
  In (k, d) (Spec.group_with upd rows) ->
  StoryInfo.id (StoryData.story d) = k
  /\ StoryData.total d = Spec.story_total rows k.
Proof.
  intros H. apply group_with_entry in H. tauto.
Qed.

Lemma detect_with_In (limit : option Z) (t : JS.number) (rows : list Row.t)
  (b : BlindspotStory.t) :
  In b (Spec.detect_with upd limit t rows) ->
  exists k d, In (k, d) (Spec.group_with upd rows)
              /\ Spec.kept t d = true /\ b = Spec.candidate d.
Proof.
  unfold Spec.detect_with. intros H.
  apply slice0_In, sort_In in H. now apply identify_In.
Qed.

(** A story whose total is below three is in no answer. *)
Lemma detect_with_min_total (limit : option Z) (t : JS.number)
  (rows : list Row.t) (b : BlindspotStory.t) :
  In b (Spec.detect_with upd limit t rows) ->
  3 <= Spec.story_total rows (BlindspotStory.id b)
  /\ BlindspotStory.total_articles b
     = Spec.story_total rows (BlindspotStory.id b).
Proof.
  intros H. apply detect_with_In in H.
  destruct H as [k [d [Hin [Hk ->]]]].
  apply group_with_total in Hin. destruct Hin as [Hid Htot].
  unfold Spec.kept in Hk. apply andb_true_iff in Hk. destruct Hk as [Hk _].
  apply negb_true_iff, Z.ltb_ge in Hk. simpl. rewrite Hid. lia.
Qed.

(** A story with three articles or more has an entry in the map. *)
Lemma group_with_entry_of_total (rows : list Row.t) (sid : Z) :
  3 <= Spec.story_total rows sid ->
  exists d, JS.Map_get (Spec.group_with upd rows) sid = Some d
            /\ In (sid, d) (Spec.group_with upd rows)
            /\ StoryData.total d = Spec.story_total rows sid.
Proof.
  intros H.
  assert (Hne : Spec.rows_of sid rows <> []).
  { intros E. unfold Spec.story_total in H. rewrite E in H. simpl in H. lia. }
  destruct (group_with_present upd rows sid Hne) as [d Hd].
  exists d. split; [| split].
  - apply (In_lookup Z.eqb Z_eqb_eq); [apply group_with_keys_NoDup | exact Hd].
  - exact Hd.
  - now apply group_with_total in Hd.
Qed.

(** Before the cut, a story is among the blindspots exactly when it is
    kept. *)
Lemma included_identify (t : JS.number) (rows : list Row.t) (sid : Z)
  (d : StoryData.t) :
  In (sid, d) (Spec.group_with upd rows) ->
  Spec.included sid (Blindspots.identify t (Spec.group_with upd rows))
  <-> Spec.kept t d = true.
Proof.
  intros Hin. split.
  - intros [b [Hb Hid]]. apply identify_In in Hb.
    destruct Hb as [k [d' [Hin' [Hk ->]]]].
    destruct (group_with_total _ _ _ Hin') as [Hk' _].
    simpl in Hid. rewrite Hk' in Hid. subst k.
    pose proof (group_with_keys_NoDup rows) as Hnd.
    apply (In_lookup Z.eqb Z_eqb_eq _ _ _ Hnd) in Hin.
    apply (In_lookup Z.eqb Z_eqb_eq _ _ _ Hnd) in Hin'.
    congruence.
  - intros Hk. exists (Spec.candidate d). split.
    + apply identify_In. eauto.
    + simpl. now apply group_with_total in Hin.
Qed.

Lemma included_detect_with (limit : option Z) (t : JS.number)
  (rows : list Row.t) (sid : Z) :
  Spec.included sid (Spec.detect_with upd limit t rows) ->
  Spec.included sid (Blindspots.identify t (Spec.group_with upd rows)).
Proof.
  intros [b [Hb Hid]]. exists b. split; [| assumption].
  unfold Spec.detect_with in Hb. now apply slice0_In, sort_In in Hb.
Qed.

Lemma included_detect_with_all (n : Z) (t : JS.number)
  (rows : list Row.t) (sid : Z) :
  Z.of_nat (List.length (Blindspots.identify t (Spec.group_with upd rows))) <= n ->
  Spec.included sid (Blindspots.identify t (Spec.group_with upd rows)) ->
  Spec.included sid (Spec.detect_with upd (Some n) t rows).
Proof.
  intros Hn [b [Hb Hid]]. exists b. split; [| assumption].
  unfold Spec.detect_with. rewrite slice0_all.
  - now apply sort_In.
  - now rewrite sort_length.
Qed.

End DetectWith.

(** ** The minimum number of articles *)

(** C1.  The blindspot detector considers only stories whose total coverage,
    the sum of the story's per-bias article counts, is at least 3: a story
    with a smaller total is in no answer of GET /api/blindspots, whatever
    the request and however dominant its leading bias is.  This holds of
    the handler of [blindspots/route.ts] and of its copy. *)
Theorem C1_min_total_articles (request : Http.NextRequest)
  (rows : list Row.t) (sid : Z) :
  Spec.story_total rows sid < 3 ->
  ~ Spec.included sid
      (Spec.blindspots_of (Blindspots.GET request (Detector.serving rows)))
  /\ ~ Spec.included sid
         (Spec.blindspots_of (BlindspotsCopy.GET request (Detector.serving rows))).
Proof.
  intros Hlt. rewrite GET_serving, GET_copy_serving.
  rewrite detect_overwrite, detect_accumulate. unfold Spec.blindspots_of. simpl.
  split; intros [b [Hb Hid]]; apply detect_with_min_total in Hb;
    rewrite Hid in Hb; lia.
Qed.

Lemma C1_min_total_articles_witness :
  Spec.story_total Sample.two_articles 1 < 3
  /\ ~ Spec.included 1
         (Spec.blindspots_of
            (Blindspots.GET Sample.plain (Detector.serving Sample.two_articles))).
Proof.
  split.
  - vm_compute. reflexivity.
  - apply (C1_min_total_articles Sample.plain Sample.two_articles 1).
    vm_compute. reflexivity.
Defined.

(** ** The dominance threshold *)

(** C2, as it is stated, fails where [limit] cuts the array: of three
    stories, two reach the default threshold, and with [limit=1] the answer
    holds one of them only.  Story 3, with nine articles of ten under one
    bias, passes the minimum-articles filter and its percentage is above
    the threshold, yet it is not in the answer. *)
Lemma C2_counterexample :
  ~ (forall (request : Http.NextRequest) (rows : list Row.t) (sid : Z),
        3 <= Spec.story_total rows sid ->
        exists d,
          JS.Map_get (Blindspots.group rows) sid = Some d
          /\ (Spec.included sid
                (Spec.blindspots_of
                   (Blindspots.GET request (Detector.serving rows)))
              <-> JS.ge (Blindspots.dominant_percentage d)
                    (Detector.threshold_of request) = true)).
Proof.
  intros H.
  destruct (H (Sample.with_limit "1") Sample.three_stories 3) as [d [Hget Hiff]].
  - vm_compute. discriminate.
  - vm_compute in Hget. injection Hget as <-.
    destruct Hiff as [_ Hback].
    destruct Hback as [b [Hin Hid]]; [vm_compute; reflexivity |].
    destruct (Spec.blindspots_of
                (Blindspots.GET (Sample.with_limit "1")
                   (Detector.serving Sample.three_stories))) as [| b0 l] eqn:E;
      vm_compute in E; [discriminate |].
    injection E as <- <-. destruct Hin as [<- | []]. discriminate.
Qed.

(** C2, amended.  The dominance threshold is an inclusive boundary.  A
    story that passes the minimum-articles filter is among the blindspots
    the detector collects (the array [blindspots], before the cut to
    [limit]) exactly when its dominant percentage is greater than or equal
    to the threshold; in particular a story whose percentage equals the
    threshold is kept.  The answer of the handler contains no other story,
    and contains exactly these when [limit] does not cut the array.  This
    holds of the handler of [blindspots/route.ts] and of its copy. *)
Theorem C2_threshold_inclusive (request : Http.NextRequest)
  (rows : list Row.t) (sid : Z) :
  3 <= Spec.story_total rows sid ->
  let t := Detector.threshold_of request in
  (exists d,
      JS.Map_get (Blindspots.group rows) sid = Some d
      /\ let p := Blindspots.dominant_percentage d in
         let kept := Blindspots.identify t (Blindspots.group rows) in
         let answer :=
           Spec.blindspots_of (Blindspots.GET request (Detector.serving rows)) in
         (Spec.included sid kept <-> JS.ge p t = true)
         /\ (p = t -> Spec.included sid kept)
         /\ (Spec.included sid answer -> JS.ge p t = true)
         /\ (forall n, Detector.limit_of request = Some n ->
                       Z.of_nat (List.length kept) <= n ->
                       (Spec.included sid answer <-> JS.ge p t = true)))
  /\ (exists d,
      JS.Map_get (BlindspotsCopy.group rows) sid = Some d
      /\ let p := BlindspotsCopy.dominant_percentage d in
         let kept := BlindspotsCopy.identify t (BlindspotsCopy.group rows) in
         let answer :=
           Spec.blindspots_of
             (BlindspotsCopy.GET request (Detector.serving rows)) in
         (Spec.included sid kept <-> JS.ge p t = true)
         /\ (p = t -> Spec.included sid kept)
         /\ (Spec.included sid answer -> JS.ge p t = true)
         /\ (forall n, Detector.limit_of request = Some n ->
                       Z.of_nat (List.length kept) <= n ->
                       (Spec.included sid answer <-> JS.ge p t = true))).
Proof.
  intros Htot t.
  assert (generic : forall upd,
    exists d, JS.Map_get (Spec.group_with upd rows) sid = Some d
      /\ 3 <= StoryData.total d
      /\ let p := Blindspots.dominant_percentage d in
         let kept := Blindspots.identify t (Spec.group_with upd rows) in
         (Spec.included sid kept <-> JS.ge p t = true)
         /\ (p = t -> Spec.included sid kept)
         /\ (forall limit, Spec.included sid (Spec.detect_with upd limit t rows)
                           -> JS.ge p t = true)
         /\ (forall n, Z.of_nat (List.length kept) <= n ->
                       (Spec.included sid (Spec.detect_with upd (Some n) t rows)
                        <-> JS.ge p t = true))).
  { intros upd.
    destruct (group_with_entry_of_total upd rows sid Htot) as [d [Hget [Hin Hd]]].
    exists d. split; [exact Hget |]. split; [lia |].
    assert (Hkept : Spec.kept t d = JS.ge (Blindspots.dominant_percentage d) t).
    { unfold Spec.kept. destruct (Z.ltb_spec (StoryData.total d) 3); [lia |].
      reflexivity. }
    pose proof (included_identify upd t rows sid d Hin) as Hiff.
    rewrite Hkept in Hiff. cbv zeta.
    split; [exact Hiff |]. split; [| split].
    - intros Hp. apply Hiff. rewrite Hp.
      unfold Blindspots.dominant_percentage in Hp.
      rewrite div_finite in Hp by lia. rewrite <- Hp. apply ge_Fin_refl.
    - intros limit H. apply Hiff. eapply included_detect_with; eauto.
    - intros n Hn. split.
      + intros H. apply Hiff. eapply included_detect_with; eauto.
      + intros H. apply included_detect_with_all; [assumption |].
        now apply Hiff. }
  split.
  - destruct (generic Spec.overwrite) as [d [Hget [_ [H1 [H2 [H3 H4]]]]]].
    exists d. split; [exact Hget |]. cbv zeta.
    rewrite GET_serving, detect_overwrite. unfold Spec.blindspots_of. simpl.
    split; [exact H1 |]. split; [exact H2 |]. split; [apply H3 |].
    intros n Hl Hn. rewrite Hl. now apply H4.
  - destruct (generic Spec.accumulate) as [d [Hget [Hd [H1 [H2 [H3 H4]]]]]].
    exists d. rewrite !group_accumulate.
    fold (Spec.group_with Spec.accumulate rows).
    split; [exact Hget |]. cbv zeta.
    rewrite GET_copy_serving, detect_accumulate, identify_copy.
    unfold Spec.blindspots_of. simpl.
    assert (Hp : BlindspotsCopy.dominant_percentage d
                 = Blindspots.dominant_percentage d).
    { unfold BlindspotsCopy.dominant_percentage, Blindspots.dominant_percentage.
      destruct (Z.gtb_spec (StoryData.total d) 0); [reflexivity | lia]. }
    rewrite Hp.
    split; [exact H1 |]. split; [exact H2 |]. split; [apply H3 |].
    intros n Hl Hn. rewrite Hl. now apply H4.
Qed.

Lemma C2_threshold_inclusive_witness :
  3 <= Spec.story_total Sample.seven_of_ten 1
  /\ exists d,
      JS.Map_get (Blindspots.group Sample.seven_of_ten) 1 = Some d
      /\ Blindspots.dominant_percentage d
         = Detector.threshold_of (Sample.with_limit "1")
      /\ Spec.included 1
           (Blindspots.identify (Detector.threshold_of (Sample.with_limit "1"))
              (Blindspots.group Sample.seven_of_ten))
      /\ Detector.limit_of (Sample.with_limit "1") = Some 1
      /\ Spec.included 1
           (Spec.blindspots_of
              (Blindspots.GET (Sample.with_limit "1")
                 (Detector.serving Sample.seven_of_ten))).
Proof.
  assert (H : 3 <= Spec.story_total Sample.seven_of_ten 1)
    by (vm_compute; discriminate).
  split; [exact H |].
  destruct (C2_threshold_inclusive (Sample.with_limit "1") Sample.seven_of_ten 1 H)
    as [[d [Hget [_ [Heq [_ Hanswer]]]]] _].
  exists d. split; [exact Hget |].
  assert (Hp : Blindspots.dominant_percentage d
               = Detector.threshold_of (Sample.with_limit "1")).
  { vm_compute in Hget. injection Hget as <-. vm_compute. reflexivity. }
  split; [exact Hp |]. split; [apply Heq; exact Hp |].
  split; [reflexivity |].
  apply (Hanswer 1); [reflexivity | vm_compute; discriminate |].
  rewrite Hp. vm_compute. reflexivity.
Defined.

(** ** The division *)

Lemma div_finite_iff (a b : Z) : JS.is_finite (JS.div a b) = true <-> b <> 0.
Proof.
  unfold JS.div. destruct (Z.eqb_spec b 0) as [-> | Hb].
  - split; [| congruence].
    destruct (a =? 0); [discriminate |]. destruct (0 <? a); discriminate.
  - simpl. tauto.
Qed.

(** C7.  The division that computes [dominant_percentage] never divides by
    zero.  A story reaches the division only when the test [data.total < 3]
    fails; its total is then at least 3, the divisor is not zero and the
    quotient is a finite number.  In the copy of the handler the guard
    [data.total > 0] of the division always holds there, so that its other
    branch is never taken.  Every percentage in an answer is finite. *)
Theorem C7_no_division_by_zero (data : StoryData.t) :
  (StoryData.total data <? 3) = false ->
  3 <= StoryData.total data
  /\ StoryData.total data <> 0
  /\ JS.is_finite (Blindspots.dominant_percentage data) = true
  /\ (StoryData.total data >? 0) = true
  /\ BlindspotsCopy.dominant_percentage data
     = JS.div (snd (Detector.find_dominant (StoryData.coverage data)))
         (StoryData.total data)
  /\ JS.is_finite (BlindspotsCopy.dominant_percentage data) = true
  /\ forall request rows b,
       In b (Spec.blindspots_of (Blindspots.GET request (Detector.serving rows)))
       \/ In b (Spec.blindspots_of
                  (BlindspotsCopy.GET request (Detector.serving rows))) ->
       JS.is_finite (BlindspotStory.dominant_percentage b) = true.
Proof.
  intros H. destruct (total_guard data H) as [H3 Hgt].
  assert (Hne : StoryData.total data <> 0) by lia.
  assert (Hfin : JS.is_finite (Blindspots.dominant_percentage data) = true).
  { unfold Blindspots.dominant_percentage. now apply div_finite_iff. }
  assert (Hcopy : BlindspotsCopy.dominant_percentage data
                  = Blindspots.dominant_percentage data).
  { unfold BlindspotsCopy.dominant_percentage, Blindspots.dominant_percentage.
    now rewrite Hgt. }
  repeat split; try assumption.
  - now rewrite Hcopy.
  - intros request rows b Hb.
    rewrite GET_serving, GET_copy_serving in Hb.
    rewrite detect_overwrite, detect_accumulate in Hb.
    unfold Spec.blindspots_of in Hb. simpl in Hb.
    assert (Hk : exists t d, Spec.kept t d = true /\ b = Spec.candidate d).
    { destruct Hb as [Hb | Hb]; apply detect_with_In in Hb;
        destruct Hb as [k [d [_ [Hk Hb]]]]; eauto. }
    destruct Hk as [t [d [Hk ->]]].
    destruct (kept_finite t d Hk) as [q Hq]. now rewrite Hq.
Qed.

Lemma C7_no_division_by_zero_witness :
  JS.is_finite
    (Blindspots.dominant_percentage
       {| StoryData.story := Detector.story_of_row (Sample.row 1 "Western" 3);
          StoryData.coverage := [("Western"%string, 3)];
          StoryData.total := 3 |}) = true.
Proof.
  apply (C7_no_division_by_zero
           {| StoryData.story := Detector.story_of_row (Sample.row 1 "Western" 3);
              StoryData.coverage := [("Western"%string, 3)];
              StoryData.total := 3 |}).
  reflexivity.
Defined.

(** ** The dominant bias *)

Lemma dominant_fold (l : list (string * Z)) (acc : string * Z) :
  let res := fold_left Detector.dominant_step l acc in
  (res = acc /\ forall e, In e l -> snd e <= snd acc)
  \/ (exists l1 l2,
         l = l1 ++ res :: l2
         /\ snd acc < snd res
         /\ (forall e, In e l1 -> snd e < snd res)
         /\ (forall e, In e l2 -> snd e <= snd res)).
Proof.
  revert acc. induction l as [| e l IH]; intros acc; simpl.
  - left. split; [reflexivity | tauto].
  - destruct acc as [b0 c0], e as [b c]. simpl.
    destruct (Z.gtb_spec c c0) as [Hgt | Hle].
    + right. destruct (IH (b, c)) as [[Hres Hall] | [l1 [l2 [Hl [Hlt [H1 H2]]]]]].
      * exists [], l. rewrite Hres. simpl. repeat split; try tauto; try lia.
      * exists ((b, c) :: l1), l2. simpl in *. rewrite Hl at 1.
        repeat split; try assumption; try lia.
        intros e [<- | He]; [simpl; lia | auto].
    + destruct (IH (b0, c0)) as [[Hres Hall] | [l1 [l2 [Hl [Hlt [H1 H2]]]]]].
      * left. split; [assumption |].
        intros e [<- | He]; [simpl; lia | auto].
      * right. exists ((b, c) :: l1), l2. simpl in *. rewrite Hl at 1.
        repeat split; try assumption.
        intros e [<- | He]; [simpl; lia | auto].
Qed.

(** With a positive count in the coverage, the dominant entry is the first
    entry that attains the greatest count. *)
Lemma find_dominant_first (cov : JS.object Z) :
  0 < Spec.sum_values cov ->
  exists l1 l2,
    cov = l1 ++ Detector.find_dominant cov :: l2
    /\ 0 < snd (Detector.find_dominant cov)
    /\ (forall e, In e l1 -> snd e < snd (Detector.find_dominant cov))
    /\ (forall e, In e l2 -> snd e <= snd (Detector.find_dominant cov)).
Proof.
  intros Hpos. unfold Detector.find_dominant, JS.Object_entries.
  destruct (dominant_fold cov (""%string, 0)) as [[_ Hall] | H].
  - exfalso. simpl in Hall.
    assert (Spec.sum_values cov <= 0); [| lia].
    clear Hpos. induction cov as [| e cov IH]; simpl; [lia |].
    assert (snd e <= 0) by (apply Hall; now left).
    assert (Spec.sum_values cov <= 0) by (apply IH; intros; apply Hall; now right).
    unfold Spec.sum_values in *. lia.
  - exact H.
Qed.

Lemma sum_values_entries (l : list Row.t) :
  Spec.sum_values (map Spec.entry_of l) = Spec.sum_counts l.
Proof.
  induction l as [| r l IH]; simpl; [reflexivity |].
  f_equal. exact IH.
Qed.

(** ** Coverage under the primary key *)

Lemma String_eqb_eq (a b : string) : String.eqb a b = true <-> a = b.
Proof. apply String.eqb_eq. Qed.

Lemma primary_key_tail (r : Row.t) (rows : list Row.t) :
  Spec.primary_key (r :: rows) ->
  Spec.primary_key rows
  /\ forall r', In r' rows -> Row.id r' = Row.id r ->
                Row.bias_classification r' <> Row.bias_classification r.
Proof.
  unfold Spec.primary_key. simpl. intros H.
  inversion H as [| ? ? Hnotin Hnd]; subst. split; [assumption |].
  intros r' Hin Hid Hb. apply Hnotin. apply in_map_iff.
  exists r'. split; [congruence | assumption].
Qed.

(** The biases of one story's rows are pairwise distinct. *)
Lemma primary_key_biases (rows : list Row.t) (sid : Z) :
  Spec.primary_key rows ->
  NoDup (map Row.bias_classification (Spec.rows_of sid rows)).
Proof.
  induction rows as [| r rows IH]; simpl; intros H.
  - constructor.
  - apply primary_key_tail in H. destruct H as [Hpk Hfresh].
    destruct (Z.eqb_spec (Row.id r) sid) as [Hid | Hid]; [| auto].
    simpl. constructor; [| auto].
    intros Hin. apply in_map_iff in Hin. destruct Hin as [r' [Hb Hin]].
    apply filter_In in Hin. destruct Hin as [Hin Hid'].
    apply Z.eqb_eq in Hid'. apply (Hfresh r' Hin); congruence.
Qed.

Lemma accumulate_fresh (cov : JS.object Z) (r : Row.t) :
  JS.obj_get cov (Row.bias_classification r) = None ->
  Spec.accumulate cov r = Spec.overwrite cov r.
Proof.
  intros H. unfold Spec.accumulate, Spec.overwrite, BlindspotsCopy.count_or_0.
  now rewrite H, number_or_0_id.
Qed.

(** Rows with fresh, distinct biases are appended in the order read. *)
Lemma overwrite_fold (l : list Row.t) (cov : JS.object Z) :
  NoDup (map Row.bias_classification l) ->
  (forall r, In r l -> JS.obj_get cov (Row.bias_classification r) = None) ->
  fold_left Spec.overwrite l cov = cov ++ map Spec.entry_of l.
Proof.
  revert cov. induction l as [| r l IH]; simpl; intros cov Hnd Hfresh.
  - now rewrite app_nil_r.
  - inversion Hnd as [| ? ? Hnotin Hnd']; subst.
    rewrite IH; [| assumption |].
    + unfold Spec.overwrite at 1. unfold JS.obj_set.
      rewrite (store_fresh String.eqb) by (apply Hfresh; now left).
      now rewrite <- app_assoc.
    + intros r' Hr'. unfold Spec.overwrite, JS.obj_get, JS.obj_set.
      rewrite (lookup_store String.eqb String_eqb_eq).
      destruct (String.eqb_spec (Row.bias_classification r)
                  (Row.bias_classification r')) as [E | E].
      * exfalso. apply Hnotin. rewrite E. now apply in_map.
      * apply Hfresh. now right.
Qed.

(** Under the primary key the coverage of a story lists its rows. *)
Lemma coverage_of_rows (rows : list Row.t) (sid : Z) (d : StoryData.t) :
  Spec.primary_key rows ->
  In (sid, d) (Blindspots.group rows) ->
  StoryData.coverage d = map Spec.entry_of (Spec.rows_of sid rows)
  /\ Spec.sum_values (StoryData.coverage d) = StoryData.total d
  /\ StoryInfo.id (StoryData.story d) = sid.
Proof.
  intros Hpk Hin. rewrite group_overwrite in Hin.
  apply group_with_entry in Hin. destruct Hin as [Hid [Htot [Hcov _]]].
  rewrite overwrite_fold in Hcov;
    [| now apply primary_key_biases | reflexivity].
  simpl in Hcov. split; [assumption |]. split; [| assumption].
  rewrite Hcov, sum_values_entries, Htot. reflexivity.
Qed.

Lemma ensure_get (m : JS.Map StoryData.t) (r : Row.t) :
  JS.Map_get (Detector.ensure m r) (Row.id r)
  = Some (match JS.Map_get m (Row.id r) with
          | Some d => d
          | None => Spec.fresh r
          end).
Proof.
  unfold Detector.ensure, JS.Map_has, JS.member, JS.Map_get, JS.Map_set.
  destruct (JS.lookup Z.eqb m (Row.id r)) as [d |] eqn:E.
  - exact E.
  - now rewrite (lookup_store Z.eqb Z_eqb_eq), Z.eqb_refl.
Qed.

(** The two grouping loops build the same map. *)
Lemma group_rows_agree (rows : list Row.t) (m : JS.Map StoryData.t) :
  Spec.primary_key rows ->
  (forall r d, In r rows -> JS.Map_get m (Row.id r) = Some d ->
               JS.obj_get (StoryData.coverage d) (Row.bias_classification r)
               = None) ->
  fold_left (Spec.group_row_with Spec.accumulate) rows m
  = fold_left (Spec.group_row_with Spec.overwrite) rows m.
Proof.
  revert m. induction rows as [| r rows IH]; simpl; intros m Hpk Hfresh.
  - reflexivity.
  - apply primary_key_tail in Hpk. destruct Hpk as [Hpk Hdiff].
    assert (Hstep : Spec.group_row_with Spec.accumulate m r
                    = Spec.group_row_with Spec.overwrite m r).
    { unfold Spec.group_row_with. cbv zeta. rewrite ensure_get.
      rewrite accumulate_fresh; [reflexivity |].
      destruct (JS.Map_get m (Row.id r)) as [d |] eqn:E; [| reflexivity].
      apply (Hfresh r d); [now left | assumption]. }
    rewrite Hstep. apply IH; [assumption |].
    intros r' d' Hr' Hget. rewrite group_row_with_get in Hget.
    destruct (Z.eqb_spec (Row.id r) (Row.id r')) as [Hid | Hid].
    + injection Hget as <-. simpl. unfold Spec.overwrite, JS.obj_get, JS.obj_set.
      rewrite (lookup_store String.eqb String_eqb_eq).
      rewrite (eqb_neq String.eqb String_eqb_eq);
        [| intros E; apply (Hdiff r' Hr'); congruence].
      destruct (JS.Map_get m (Row.id r)) as [d |] eqn:E; [| reflexivity].
      apply (Hfresh r' d); [now right | congruence].
    + apply (Hfresh r' d'); [now right | assumption].
Qed.

Lemma group_copy_eq (rows : list Row.t) :
  Spec.primary_key rows -> BlindspotsCopy.group rows = Blindspots.group rows.
Proof.
  intros Hpk. rewrite group_accumulate, group_overwrite.
  apply group_rows_agree; [assumption |]. intros r d _ H. discriminate.
Qed.

Lemma detect_copy_eq (limit : option Z) (t : JS.number) (rows : list Row.t) :
  Spec.primary_key rows ->
  BlindspotsCopy.detect limit t rows = Blindspots.detect limit t rows.
Proof.
  intros Hpk. unfold BlindspotsCopy.detect, Blindspots.detect.
  now rewrite identify_copy, group_copy_eq.
Qed.

(** The six bias categories of the schema are ordinary names. *)
Example canonical_order_ordinary :
  forallb Names.ordinary Spec.canonical_order = true.
Proof. reflexivity. Qed.

Example inherited_names_not_ordinary :
  map Names.ordinary ["constructor"; "__proto__"; "toString"; "1"; "10"]%string
  = [false; false; false; false; false].
Proof. reflexivity. Qed.




(** ** Ties *)

Lemma C4_counterexample :
  ~ (forall request rows,
        Spec.primary_key rows ->
        Forall Spec.ties_by_canonical_order
          (Spec.blindspots_of (Blindspots.GET request (Detector.serving rows))))
  /\ ~ (forall request rows rows',
           Spec.primary_key rows -> Permutation rows rows' ->
           map BlindspotStory.dominant_bias
             (Spec.blindspots_of (Blindspots.GET request (Detector.serving rows)))
           = map BlindspotStory.dominant_bias
               (Spec.blindspots_of
                  (Blindspots.GET request (Detector.serving rows')))).
Proof.
  assert (Hpk : Spec.primary_key Sample.tie).
  { unfold Spec.primary_key. simpl.
    repeat constructor; simpl; intuition discriminate. }
  split.
  - intros H.
    specialize (H (Sample.with_threshold "0.5") Sample.tie Hpk).
    destruct (Spec.blindspots_of _) as [| b l] eqn:E;
      [vm_compute in E; discriminate |].
    vm_compute in E. injection E as <- <-.
    apply Forall_inv in H.
    specialize (H "Regional"%string 2).
    assert (Hle : (2 <= 1)%nat); [| lia].
    apply H.
    + right. now left.
    + intros e [<- | [<- | []]]; simpl; lia.
  - intros H.
    specialize (H (Sample.with_threshold "0.5") Sample.tie Sample.tie_swapped
                  Hpk (perm_swap _ _ _)).
    vm_compute in H. discriminate.
Qed.

(** C4, amended.  When two or more bias categories tie for the greatest
    count of a story, the detector selects the one whose coverage row was
    read first: the rows of the story read before the selected one have a
    strictly smaller count, the rows read after it have no greater count.
    The selected category is thus a function of the sequence of rows, not
    of the set of rows alone.  This holds of both copies of the handler,
    for rows with one row for a story and a bias and with bias names that
    are ordinary property names, as the six categories are. *)
Theorem C4_first_row_read_wins (request : Http.NextRequest)
  (rows : list Row.t) (b : BlindspotStory.t) :
  Spec.primary_key rows ->
  Spec.ordinary_biases rows ->
  In b (Spec.blindspots_of (Blindspots.GET request (Detector.serving rows)))
  \/ In b (Spec.blindspots_of
             (BlindspotsCopy.GET request (Detector.serving rows))) ->
  exists l1 r l2,
    Spec.rows_of (BlindspotStory.id b) rows = l1 ++ r :: l2
    /\ BlindspotStory.dominant_bias b = Row.bias_classification r
    /\ (forall r', In r' l1 -> Row.article_count r' < Row.article_count r)
    /\ (forall r', In r' l2 -> Row.article_count r' <= Row.article_count r).
Proof.
  intros Hpk _ Hb.
  rewrite GET_serving, GET_copy_serving, detect_copy_eq in Hb by assumption.
  assert (Hb' : In b (Blindspots.detect (Detector.limit_of request)
                        (Detector.threshold_of request) rows)) by tauto.
  clear Hb. rewrite detect_overwrite in Hb'. apply detect_with_In in Hb'.
  destruct Hb' as [k [d [Hin [Hk ->]]]].
  destruct (coverage_of_rows rows k d Hpk Hin) as [Hcov [Hsum Hid]].
  unfold Spec.kept in Hk. apply andb_true_iff in Hk. destruct Hk as [Hk _].
  apply negb_true_iff, Z.ltb_ge in Hk.
  destruct (find_dominant_first (StoryData.coverage d))
    as [e1 [e2 [Hl [_ [H1 H2]]]]]; [lia |].
  rewrite Hcov in Hl at 1.
  apply map_eq_app in Hl. destruct Hl as [l1 [l2' [Hrows [Hm1 Hm2]]]].
  apply map_eq_cons in Hm2. destruct Hm2 as [r [l2 [-> [Hr Hm2]]]].
  exists l1, r, l2. simpl. rewrite Hid.
  split; [exact Hrows |]. split; [now rewrite <- Hr |].
  rewrite <- Hr in H1, H2. simpl in H1, H2. split.
  - intros r' Hr'. apply (H1 (Spec.entry_of r')). rewrite <- Hm1. now apply in_map.
  - intros r' Hr'. apply (H2 (Spec.entry_of r')). rewrite <- Hm2. now apply in_map.
Qed.

Lemma C4_first_row_read_wins_witness :
  Spec.primary_key Sample.tie
  /\ Spec.ordinary_biases Sample.tie
  /\ exists l1 r l2,
      Spec.rows_of 1 Sample.tie = l1 ++ r :: l2
      /\ "Independent Local"%string = Row.bias_classification r
      /\ (forall r', In r' l1 -> Row.article_count r' < Row.article_count r)
      /\ (forall r', In r' l2 -> Row.article_count r' <= Row.article_count r).
Proof.
  assert (Hpk : Spec.primary_key Sample.tie).
  { unfold Spec.primary_key. simpl.
    repeat constructor; simpl; intuition discriminate. }
  assert (Hord : Spec.ordinary_biases Sample.tie).
  { intros r [<- | [<- | []]]; reflexivity. }
  split; [exact Hpk |]. split; [exact Hord |].
  apply (C4_first_row_read_wins (Sample.with_threshold "0.5") Sample.tie
           (Spec.candidate
              {| StoryData.story :=
                   Detector.story_of_row (Sample.row 1 "Independent Local" 2);
                 StoryData.coverage :=
                   [("Independent Local"%string, 2); ("Regional"%string, 2)];
                 StoryData.total := 4 |}) Hpk Hord).
  left. vm_compute. left. reflexivity.
Defined.

(** ** The rows of a database state *)



(** ** The two copies of the handler *)



(** ** The order and the size of the answer *)

Lemma ge_trans (a b c : JS.number) :
  JS.ge a b = true -> JS.ge b c = true -> JS.ge a c = true.
Proof.
  destruct a, b, c; simpl; try congruence.
  rewrite !Qle_bool_iff. intros. eapply Qle_trans; eauto.
Qed.

(** On finite percentages the comparator decides the order. *)
Lemma by_percentage_order (x y : BlindspotStory.t) (p q : Q) :
  BlindspotStory.dominant_percentage x = JS.Fin p ->
  BlindspotStory.dominant_percentage y = JS.Fin q ->
  if JS.gt0 (Detector.by_percentage x y)
  then Spec.percentage_ge y x
  else Spec.percentage_ge x y.
Proof.
  intros Hx Hy. unfold Detector.by_percentage, Spec.percentage_ge.
  rewrite Hx, Hy. simpl.
  destruct (Qle_bool (q - p) 0) eqn:E; simpl.
  - apply Qle_bool_iff in E. apply Qle_bool_iff. lra.
  - apply Qle_bool_iff.
    assert (~ (q - p <= 0)%Q).
    { intros H. apply Qle_bool_iff in H. congruence. }
    lra.
Qed.

Lemma insert_sorted (x : BlindspotStory.t) (s : list BlindspotStory.t) :
  Spec.finite_percentage x -> Forall Spec.finite_percentage s ->
  StronglySorted Spec.percentage_ge s ->
  StronglySorted Spec.percentage_ge (JS.insert Detector.by_percentage x s).
Proof.
  intros [p Hx] Hfin Hs. induction Hs as [| y s Hs IH Hy]; simpl.
  - repeat constructor.
  - inversion Hfin as [| ? ? [q Hq] Hfin']; subst.
    pose proof (by_percentage_order x y p q Hx Hq) as Hord.
    destruct (JS.gt0 (Detector.by_percentage x y)).
    + constructor; [auto |].
      apply Forall_forall. intros z Hz.
      apply (Permutation_in _ (Permutation_sym (insert_perm _ x s))) in Hz.
      destruct Hz as [<- | Hz]; [assumption |].
      now apply (proj1 (Forall_forall _ _) Hy).
    + constructor; [now constructor |].
      constructor; [assumption |].
      apply Forall_forall. intros z Hz.
      unfold Spec.percentage_ge in *. eapply ge_trans; [exact Hord |].
      now apply (proj1 (Forall_forall _ _) Hy).
Qed.

Lemma sort_finite (l : list BlindspotStory.t) :
  Forall Spec.finite_percentage l ->
  Forall Spec.finite_percentage (JS.sort Detector.by_percentage l).
Proof.
  intros H. apply Forall_forall. intros x Hx. apply sort_In in Hx.
  now apply (proj1 (Forall_forall _ _) H).
Qed.

Lemma sort_sorted (l : list BlindspotStory.t) :
  Forall Spec.finite_percentage l ->
  StronglySorted Spec.percentage_ge (JS.sort Detector.by_percentage l).
Proof.
  induction l as [| x l IH]; simpl; intros H.
  - constructor.
  - inversion H; subst. apply insert_sorted; auto using sort_finite.
Qed.

Lemma firstn_sorted {A} (R : A -> A -> Prop) (n : nat) (l : list A) :
  StronglySorted R l -> StronglySorted R (firstn n l).
Proof.
  revert n. induction l as [| x l IH]; intros n Hs.
  - now rewrite firstn_nil.
  - destruct n as [| n]; simpl; [constructor |].
    inversion Hs; subst. constructor; [auto |].
    apply Forall_forall. intros y Hy. apply firstn_subset in Hy.
    now apply (proj1 (Forall_forall _ _) H2).
Qed.

Lemma detect_with_sorted (upd : JS.object Z -> Row.t -> JS.object Z)
  (limit : option Z) (t : JS.number) (rows : list Row.t) :
  StronglySorted Spec.percentage_ge (Spec.detect_with upd limit t rows).
Proof.
  unfold Spec.detect_with, JS.slice0. apply firstn_sorted, sort_sorted.
  apply identify_finite.
Qed.

Lemma limit_default (request : Http.NextRequest) :
  Http.searchParams_get (Http.searchParams request) "limit" = None ->
  Detector.limit_of request = Some 10.
Proof. unfold Detector.limit_of. now intros ->. Qed.

Lemma C5_counterexample :
  ~ (forall request rows limit,
        Detector.limit_of request = Some limit ->
        Z.of_nat
          (List.length
             (Spec.blindspots_of
                (Blindspots.GET request (Detector.serving rows))))
        <= limit).
Proof.
  intros H.
  specialize (H (Sample.with_limit "-1") Sample.three_stories (-1) eq_refl).
  vm_compute in H. apply H. reflexivity.
Qed.

(** C5, amended.  The answer is sorted by [dominant_percentage] in
    descending order, whatever the request.  It has at most [limit]
    entries whenever [limit] is not negative, and [limit] is 10 when the
    request has no [limit] parameter. *)
Theorem C5_sorted_and_limited (request : Http.NextRequest) (rows : list Row.t) :
  let answer :=
    Spec.blindspots_of (Blindspots.GET request (Detector.serving rows)) in
  StronglySorted Spec.percentage_ge answer
  /\ (forall limit, Detector.limit_of request = Some limit -> 0 <= limit ->
                    Z.of_nat (List.length answer) <= limit)
  /\ (Http.searchParams_get (Http.searchParams request) "limit" = None ->
      Detector.limit_of request = Some 10
      /\ Z.of_nat (List.length answer) <= 10).
Proof.
  cbv zeta. rewrite GET_serving. unfold Spec.blindspots_of. simpl.
  split; [| split].
  - rewrite detect_overwrite. apply detect_with_sorted.
  - intros limit Hl Hpos. rewrite Hl. unfold Blindspots.detect.
    now apply slice0_length.
  - intros Hnone. apply limit_default in Hnone. split; [assumption |].
    rewrite Hnone. unfold Blindspots.detect. apply slice0_length. lia.
Qed.

Lemma C5_sorted_and_limited_witness :
  Detector.limit_of (Sample.with_limit "1") = Some 1
  /\ Z.of_nat
       (List.length
          (Spec.blindspots_of
             (Blindspots.GET (Sample.with_limit "1")
                (Detector.serving Sample.three_stories)))) <= 1.
Proof.
  split; [reflexivity |].
  apply (proj1 (proj2 (C5_sorted_and_limited (Sample.with_limit "1")
                         Sample.three_stories)) 1 eq_refl).
  lia.
Defined.

(** ** Monotonicity in the threshold *)

Section SortSplit.
Context {A : Type} (cmp : A -> A -> JS.number) (keep : A -> bool).

(** When every kept element comes strictly before every dropped one, the
    sorted kept elements are a prefix of the sorted array. *)
Lemma sort_split (l : list A) :
  (forall x y, In x l -> In y l -> keep x = true -> keep y = false ->
               JS.gt0 (cmp y x) = true /\ JS.gt0 (cmp x y) = false) ->
  JS.sort cmp l
  = JS.sort cmp (filter keep l)
    ++ JS.sort cmp (filter (fun x => negb (keep x)) l).
Proof.
  induction l as [| x l IH]; simpl; intros H.
  - reflexivity.
  - rewrite IH by (intros; apply H; auto).
    destruct (keep x) eqn:Ex; simpl.
    + apply insert_app_stop. intros y Hy.
      apply sort_In, filter_In in Hy. destruct Hy as [Hy Hk].
      apply negb_true_iff in Hk. apply (H x y); auto.
    + apply insert_app_pass. intros y Hy.
      apply sort_In, filter_In in Hy. destruct Hy as [Hy Hk].
      apply (H y x); auto.
Qed.

End SortSplit.

Lemma slice0_app_prefix {A} (l r : list A) (end_ : option Z) :
  exists n, JS.slice0 l end_ = firstn n (JS.slice0 (l ++ r) end_).
Proof.
  unfold JS.slice0. rewrite length_app, Nat2Z.inj_add.
  set (e := match end_ with Some e => e | None => 0 end).
  set (ll := Z.of_nat (List.length l)). set (lr := Z.of_nat (List.length r)).
  set (n1 := Z.to_nat (if e <? 0 then Z.max (ll + e) 0 else Z.min e ll)).
  set (n2 := Z.to_nat
               (if e <? 0 then Z.max (ll + lr + e) 0 else Z.min e (ll + lr))).
  assert (H1 : (n1 <= List.length l)%nat).
  { subst n1 ll. destruct (e <? 0) eqn:E; [apply Z.ltb_lt in E |]; lia. }
  assert (H2 : (n1 <= n2)%nat).
  { subst n1 n2 ll lr. destruct (e <? 0); lia. }
  exists n1. rewrite firstn_firstn, Nat.min_l by assumption.
  rewrite firstn_app.
  replace (n1 - List.length l)%nat with 0%nat by lia.
  simpl. now rewrite app_nil_r.
Qed.

Lemma kept_cases (t1 t2 : JS.number) (d : StoryData.t) :
  JS.le t1 t2 = true ->
  (Spec.kept t1 d = false /\ Spec.kept t2 d = false)
  \/ (Spec.kept t1 d = true /\ Spec.kept t2 d = false
      /\ JS.ge (BlindspotStory.dominant_percentage (Spec.candidate d)) t2 = false)
  \/ (Spec.kept t1 d = true /\ Spec.kept t2 d = true
      /\ JS.ge (BlindspotStory.dominant_percentage (Spec.candidate d)) t2 = true).
Proof.
  intros Hle. unfold Spec.kept. simpl.
  destruct (StoryData.total d <? 3); simpl; [now left |].
  destruct (JS.ge (Blindspots.dominant_percentage d) t2) eqn:E2.
  - right. right. now rewrite (ge_le_trans _ _ _ E2 Hle).
  - destruct (JS.ge (Blindspots.dominant_percentage d) t1); auto.
Qed.

(** Raising the threshold keeps a prefix of the answer. *)
Lemma detect_with_prefix (upd : JS.object Z -> Row.t -> JS.object Z)
  (limit : option Z) (t1 t2 : JS.number) (rows : list Row.t) :
  JS.le t1 t2 = true ->
  exists n, Spec.detect_with upd limit t2 rows
            = firstn n (Spec.detect_with upd limit t1 rows).
Proof.
  intros Hle. unfold Spec.detect_with.
  set (m := Spec.group_with upd rows).
  set (keep := fun b => JS.ge (BlindspotStory.dominant_percentage b) t2).
  assert (Hfilter : Blindspots.identify t2 m
                    = filter keep (Blindspots.identify t1 m)).
  { rewrite !identify_filter. clearbody m.
    induction m as [| e m IH]; simpl; [reflexivity |].
    destruct (kept_cases t1 t2 (snd e) Hle) as [[K1 K2] | [[K1 [K2 K]] | [K1 [K2 K]]]];
      rewrite K1, K2; simpl.
    - exact IH.
    - unfold keep at 1. rewrite K. exact IH.
    - unfold keep at 1. rewrite K. now f_equal. }
  rewrite Hfilter.
  rewrite (sort_split Detector.by_percentage keep (Blindspots.identify t1 m)).
  - apply slice0_app_prefix.
  - intros x y Hx Hy Kx Ky.
    pose proof (identify_finite t1 m) as Hfin.
    rewrite Forall_forall in Hfin.
    destruct (Hfin x Hx) as [p Hp]. destruct (Hfin y Hy) as [q Hq].
    unfold keep in Kx, Ky. unfold Detector.by_percentage.
    rewrite Hp, Hq in *. now apply gt0_sub_split with (t := t2).
Qed.

(** C6.  Blindspot monotonicity.  For a fixed database state and a fixed
    limit, when the threshold of one request is at most the threshold of
    another, every blindspot returned for the greater threshold is returned
    for the smaller one, and the answer for the greater threshold is no
    longer: raising [dominant_threshold] never increases the size of the
    answer.  This holds of both copies of the handler. *)
Theorem C6_threshold_monotone (request1 request2 : Http.NextRequest)
  (rows : list Row.t) :
  Detector.limit_of request1 = Detector.limit_of request2 ->
  JS.le (Detector.threshold_of request1) (Detector.threshold_of request2) = true ->
  (let answer1 :=
     Spec.blindspots_of (Blindspots.GET request1 (Detector.serving rows)) in
   let answer2 :=
     Spec.blindspots_of (Blindspots.GET request2 (Detector.serving rows)) in
   incl answer2 answer1
   /\ (List.length answer2 <= List.length answer1)%nat)
  /\ (let answer1 :=
        Spec.blindspots_of (BlindspotsCopy.GET request1 (Detector.serving rows)) in
      let answer2 :=
        Spec.blindspots_of (BlindspotsCopy.GET request2 (Detector.serving rows)) in
      incl answer2 answer1
      /\ (List.length answer2 <= List.length answer1)%nat).
Proof.
  intros Hlimit Hle. cbv zeta.
  rewrite !GET_serving, !GET_copy_serving, !detect_overwrite, !detect_accumulate.
  unfold Spec.blindspots_of. simpl. rewrite Hlimit.
  split.
  - destruct (detect_with_prefix Spec.overwrite (Detector.limit_of request2)
                _ _ rows Hle) as [n ->].
    split; [intros b; apply firstn_subset | rewrite length_firstn; apply Nat.le_min_r].
  - destruct (detect_with_prefix Spec.accumulate (Detector.limit_of request2)
                _ _ rows Hle) as [n ->].
    split; [intros b; apply firstn_subset | rewrite length_firstn; apply Nat.le_min_r].
Qed.

Lemma C6_threshold_monotone_witness :
  JS.le (Detector.threshold_of (Sample.with_threshold "0.5"))
        (Detector.threshold_of (Sample.with_threshold "0.95")) = true
  /\ incl
       (Spec.blindspots_of
          (Blindspots.GET (Sample.with_threshold "0.95")
             (Detector.serving Sample.three_stories)))
       (Spec.blindspots_of
          (Blindspots.GET (Sample.with_threshold "0.5")
             (Detector.serving Sample.three_stories))).
Proof.
  split; [reflexivity |].
  apply (C6_threshold_monotone (Sample.with_threshold "0.5")
           (Sample.with_threshold "0.95") Sample.three_stories eq_refl eq_refl).
Defined.

(** ** The story route *)

Lemma story_by_id_None (t : Schema.Tables) (n : Z) :
  (forall s, In s (Schema.stories t) -> StoryInfo.id s <> n) ->
  Schema.story_by_id t n = None.
Proof.
  intros H. unfold Schema.story_by_id.
  destruct (find _ _) as [s |] eqn:E; [| reflexivity].
  apply find_some in E. destruct E as [Hin Hid].
  apply Z.eqb_eq in Hid. now apply H in Hin.
Qed.

(** C10.  GET /api/stories/[storyId] validates its path parameter before
    it touches data.  When [parseInt] of the parameter is [NaN] the
    response is 400 with the error "Invalid story ID" and no statement has
    been run, whatever the binding.  When the parameter parses to an
    integer that is the id of no row of [stories], the response is 404 with
    the error "Story not found": the statement that reads the story is the
    only one that was run, and the body holds neither articles nor
    coverage. *)
Theorem C10_story_id_validation :
  (forall (params_storyId : string) (context : D1.Outcome StoryRoute.Env),
      JS.isNaN (JS.parseInt params_storyId) = true ->
      StoryRoute.GET params_storyId context
      = ({| Http.status := 400;
            Http.body := Http.Error "Invalid story ID" Http.NoDetails |}, []))
  /\ (forall (params_storyId : string) (storyId : Z) (t : Schema.Tables),
         JS.parseInt params_storyId = Some storyId ->
         (forall s, In s (Schema.stories t) -> StoryInfo.id s <> storyId) ->
         StoryRoute.GET params_storyId (StoryRoute.serving t)
         = ({| Http.status := 404;
               Http.body := Http.Error "Story not found" Http.NoDetails |},
            [StoryRoute.StoryQuery storyId])).
Proof.
  split.
  - intros p context H. unfold StoryRoute.GET.
    destruct (JS.parseInt p); [discriminate | reflexivity].
  - intros p n t Hp Hnone. unfold StoryRoute.GET. rewrite Hp. simpl.
    now rewrite story_by_id_None.
Qed.

Lemma C10_story_id_validation_witness :
  (JS.isNaN (JS.parseInt "abc") = true
   /\ StoryRoute.GET "abc" (StoryRoute.serving Sample.tables)
      = ({| Http.status := 400;
            Http.body := Http.Error "Invalid story ID" Http.NoDetails |}, []))
  /\ (JS.parseInt "42" = Some 42
      /\ StoryRoute.GET "42" (StoryRoute.serving Sample.tables)
         = ({| Http.status := 404;
               Http.body := Http.Error "Story not found" Http.NoDetails |},
            [StoryRoute.StoryQuery 42])).
Proof.
  split; (split; [reflexivity |]).
  - apply (proj1 C10_story_id_validation "abc"%string). reflexivity.
  - apply (proj2 C10_story_id_validation "42"%string 42 Sample.tables).
    + reflexivity.
    + intros s [<- | []]. simpl. discriminate.
Defined.

(** ** The stories route: the coverage statement *)


Lemma filter_none {A} (f : A -> bool) (l : list A) :
  (forall x, In x l -> f x = false) -> filter f l = [].
Proof.
  induction l as [| x l IH]; simpl; intros H; [reflexivity |].
  rewrite (H x (or_introl eq_refl)). apply IH. intros y Hy. apply H. now right.
Qed.

Lemma find_app_last {A} (p : A -> bool) (l : list A) (x : A) :
  find p (l ++ [x])
  = match find p l with
    | Some y => Some y
    | None => if p x then Some x else None
    end.
Proof.
  induction l as [| y l IH]; simpl; [reflexivity |].
  destruct (p y); [reflexivity | exact IH].
Qed.

(** The placeholder that the handler writes is no parameter. *)
Lemma placeholders_refused (storyIds : list Z) :
  storyIds <> [] ->
  forallb SQLite.is_variable (StoriesRoute.placeholders storyIds) = false.
Proof.
  destruct storyIds as [| i ids]; [congruence |]. intros _. reflexivity.
Qed.

(** C8.  The [total_articles] of GET /api/stories.  For each id of the
    page the handler writes a bare [:] into the list of its coverage
    statement, where the comment beside it announces positional
    parameters.  The database refuses such a statement, so for every page
    of stories that is not empty the handler answers 500 with the error
    "Failed to fetch stories" and serves no story, hence no
    [total_articles], whatever coverage rows the stories have. *)
Theorem C8_coverage_statement_refused (request : Http.NextRequest)
  (page : option Z -> option Z -> list StoryInfo.t)
  (coverage : list Z -> list CoverageRow.t) :
  page (StoriesRoute.limit_of request) (StoriesRoute.offset_of request) <> [] ->
  let response :=
    StoriesRoute.GET request
      (D1.Resolved {| StoriesRoute.DB := Some (StoriesRoute.d1 page coverage) |}) in
  Http.status response = 500
  /\ (exists details,
         Http.body response = Http.Error "Failed to fetch stories" details)
  /\ StoriesRoute.stories_of response = [].
Proof.
  intros Hpage. unfold StoriesRoute.GET. cbn [StoriesRoute.DB].
  cbn [StoriesRoute.d1 StoriesRoute.storiesQuery StoriesRoute.coverageQuery
       D1.rows D1.results].
  destruct (page _ _) as [| s l] eqn:E; [congruence |].
  cbn [map]. rewrite (placeholders_refused (StoryInfo.id s :: map StoryInfo.id l))
    by discriminate.
  split; [reflexivity |]. split; [| reflexivity].
  eexists. reflexivity.
Qed.

Lemma C8_coverage_statement_refused_witness :
  [Sample.story 1] <> []
  /\ CoverageRow.total_articles Sample.coverage_row = 3
  /\ Http.status
       (StoriesRoute.GET Sample.plain
          (D1.Resolved
             {| StoriesRoute.DB :=
                  Some (StoriesRoute.d1 (fun _ _ => [Sample.story 1])
                          (fun _ => [Sample.coverage_row])) |})) = 500
  /\ StoriesRoute.stories_of
       (StoriesRoute.GET Sample.plain
          (D1.Resolved
             {| StoriesRoute.DB :=
                  Some (StoriesRoute.d1 (fun _ _ => [Sample.story 1])
                          (fun _ => [Sample.coverage_row])) |})) = [].
Proof.
  assert (H : (fun _ _ : option Z => [Sample.story 1])
                (StoriesRoute.limit_of Sample.plain)
                (StoriesRoute.offset_of Sample.plain) <> [])
    by discriminate.
  split; [exact H |]. split; [reflexivity |].
  pose proof (C8_coverage_statement_refused Sample.plain
                (fun _ _ => [Sample.story 1]) (fun _ => [Sample.coverage_row]) H)
    as [Hs [_ Hl]].
  split; [exact Hs | exact Hl].
Defined.

(** * Further properties *)

(** ** The blindspot detector: the answer *)

Lemma NoDup_map_filter {A B} (g : A -> B) (f : A -> bool) (l : list A) :
  NoDup (map g l) -> NoDup (map g (filter f l)).
Proof.
  induction l as [| x l IH]; simpl; intros H; [constructor |].
  inversion H as [| ? ? Hnotin Hnd]; subst.
  destruct (f x); simpl; [| auto].
  constructor; [| auto].
  intros Hin. apply Hnotin. apply in_map_iff in Hin.
  destruct Hin as [y [Hy Hin]]. apply filter_In in Hin.
  apply in_map_iff. exists y. tauto.
Qed.

Lemma NoDup_firstn {A} (n : nat) (l : list A) : NoDup l -> NoDup (firstn n l).
Proof.
  intros H. rewrite <- (firstn_skipn n l) in H.
  now apply NoDup_app_remove_r in H.
Qed.

Lemma identify_ids (upd : JS.object Z -> Row.t -> JS.object Z)
  (t : JS.number) (rows : list Row.t) :
  map BlindspotStory.id (Blindspots.identify t (Spec.group_with upd rows))
  = map fst (filter (fun e => Spec.kept t (snd e)) (Spec.group_with upd rows)).
Proof.
  rewrite identify_filter, map_map. apply map_ext_in.
  intros [k d] Hin. apply filter_In in Hin. destruct Hin as [Hin _].
  apply group_with_total in Hin. simpl. tauto.
Qed.

Lemma detect_with_ids_NoDup (upd : JS.object Z -> Row.t -> JS.object Z)
  (limit : option Z) (t : JS.number) (rows : list Row.t) :
  NoDup (map BlindspotStory.id (Spec.detect_with upd limit t rows)).
Proof.
  unfold Spec.detect_with, JS.slice0. rewrite <- firstn_map.
  apply NoDup_firstn.
  eapply Permutation_NoDup;
    [apply Permutation_map, sort_perm |].
  rewrite identify_ids. apply NoDup_map_filter, group_with_keys_NoDup.
Qed.

(** X1.  No story is flagged twice: the ids of the blindspots of an answer
    are pairwise distinct, whatever the request and the rows, in both
    copies of the handler. *)
Theorem answer_ids_distinct (request : Http.NextRequest) (rows : list Row.t) :
  NoDup (map BlindspotStory.id
           (Spec.blindspots_of (Blindspots.GET request (Detector.serving rows))))
  /\ NoDup (map BlindspotStory.id
              (Spec.blindspots_of
                 (BlindspotsCopy.GET request (Detector.serving rows)))).
Proof.
  rewrite GET_serving, GET_copy_serving, detect_overwrite, detect_accumulate.
  unfold Spec.blindspots_of. simpl. split; apply detect_with_ids_NoDup.
Qed.

(** ** The blindspot detector: bounds of the percentage *)

Lemma Q_quotient_bounds (a b : Z) :
  0 <= a -> 0 < b ->
  (0 <= inject_Z a / inject_Z b)%Q
  /\ (a <= b -> (inject_Z a / inject_Z b <= 1)%Q).
Proof.
  intros Ha Hb. destruct b as [| p | p]; try lia.
  unfold Qdiv, Qmult, Qinv, Qle, inject_Z. simpl. split; [lia |].
  intros Hab. lia.
Qed.

Lemma find_dominant_nonneg (cov : JS.object Z) :
  0 <= snd (Detector.find_dominant cov).
Proof.
  unfold Detector.find_dominant, JS.Object_entries.
  destruct (dominant_fold cov (""%string, 0)) as [[-> _] | [l1 [l2 [_ [H _]]]]];
    simpl in *; lia.
Qed.

Lemma sum_values_member (cov : JS.object Z) (e : string * Z) :
  (forall x, In x cov -> 0 <= snd x) -> In e cov ->
  snd e <= Spec.sum_values cov.
Proof.
  induction cov as [| x cov IH]; simpl; intros Hnn Hin; [contradiction |].
  assert (0 <= Spec.sum_values cov).
  { clear IH Hin. induction cov as [| y cov IH]; simpl; [lia |].
    assert (0 <= snd y) by (apply Hnn; right; now left).
    assert (0 <= Spec.sum_values cov).
    { apply IH. intros z [Hz | Hz]; apply Hnn; [now left | right; now right]. }
    unfold Spec.sum_values in *. lia. }
  assert (0 <= snd x) by (apply Hnn; now left).
  destruct Hin as [-> | Hin].
  - unfold Spec.sum_values in *. lia.
  - assert (snd e <= Spec.sum_values cov).
    { apply IH; [| assumption]. intros z Hz. apply Hnn. now right. }
    unfold Spec.sum_values in *. lia.
Qed.

(** The percentage of a story that reaches the division. *)
Lemma percentage_value (d : StoryData.t) :
  3 <= StoryData.total d ->
  exists q,
    Blindspots.dominant_percentage d = JS.Fin q
    /\ (0 <= q)%Q
    /\ (snd (Detector.find_dominant (StoryData.coverage d)) <= StoryData.total d ->
        (q <= 1)%Q).
Proof.
  intros H3. unfold Blindspots.dominant_percentage.
  rewrite div_finite by lia. eexists. split; [reflexivity |].
  destruct (Q_quotient_bounds
              (snd (Detector.find_dominant (StoryData.coverage d)))
              (StoryData.total d)) as [H0 H1];
    [apply find_dominant_nonneg | lia |].
  rewrite Qred_correct. split; [exact H0 | exact H1].
Qed.

Lemma dominant_le_total (rows : list Row.t) (k : Z) (d : StoryData.t) :
  Spec.primary_key rows -> More.nonneg_counts rows ->
  In (k, d) (Blindspots.group rows) -> 3 <= StoryData.total d ->
  snd (Detector.find_dominant (StoryData.coverage d)) <= StoryData.total d.
Proof.
  intros Hpk Hnn Hin H3.
  destruct (coverage_of_rows rows k d Hpk Hin) as [Hcov [Hsum _]].
  destruct (find_dominant_first (StoryData.coverage d))
    as [l1 [l2 [Hl _]]]; [lia |].
  rewrite <- Hsum. apply sum_values_member.
  - intros x Hx. rewrite Hcov in Hx. apply in_map_iff in Hx.
    destruct Hx as [r [<- Hr]]. apply filter_In in Hr. simpl. apply Hnn. tauto.
  - rewrite Hl at 2. apply in_or_app. right. now left.
Qed.

(** X2.  The percentage of a blindspot of an answer is a finite number that
    is not negative; when the rows have the primary key of
    [story_coverage] and no negative count, it is at most 1.  This holds of
    both copies of the handler. *)
Theorem percentage_bounds (request : Http.NextRequest) (rows : list Row.t)
  (b : BlindspotStory.t) :
  In b (Spec.blindspots_of (Blindspots.GET request (Detector.serving rows)))
  \/ In b (Spec.blindspots_of
             (BlindspotsCopy.GET request (Detector.serving rows))) ->
  exists q,
    BlindspotStory.dominant_percentage b = JS.Fin q
    /\ (0 <= q)%Q
    /\ (Spec.primary_key rows -> More.nonneg_counts rows -> (q <= 1)%Q).
Proof.
  rewrite GET_serving, GET_copy_serving. unfold Spec.blindspots_of. simpl.
  intros Hb.
  assert (Hk : exists d, Spec.kept (Detector.threshold_of request) d = true
                         /\ b = Spec.candidate d).
  { rewrite detect_overwrite, detect_accumulate in Hb.
    destruct Hb as [Hb | Hb]; apply detect_with_In in Hb;
      destruct Hb as [k [d [_ [Hk Hb]]]]; eauto. }
  destruct Hk as [d [Hk ->]].
  assert (H3 : 3 <= StoryData.total d).
  { unfold Spec.kept in Hk. apply andb_true_iff in Hk. destruct Hk as [Hk _].
    now apply negb_true_iff, Z.ltb_ge in Hk. }
  destruct (percentage_value d H3) as [q [Hq [H0 H1]]].
  exists q. split; [exact Hq |]. split; [exact H0 |].
  intros Hpk Hnn. apply H1.
  rewrite detect_copy_eq in Hb by assumption.
  assert (Hb' : In (Spec.candidate d)
                  (Blindspots.detect (Detector.limit_of request)
                     (Detector.threshold_of request) rows)) by tauto.
  rewrite detect_overwrite in Hb'. apply detect_with_In in Hb'.
  destruct Hb' as [k [d' [Hin [Hk' Hc]]]].
  assert (Hd : snd (Detector.find_dominant (StoryData.coverage d'))
               <= StoryData.total d').
  { apply (dominant_le_total rows k d' Hpk Hnn Hin).
    unfold Spec.kept in Hk'. apply andb_true_iff in Hk'. destruct Hk' as [Hk' _].
    now apply negb_true_iff, Z.ltb_ge in Hk'. }
  assert (Hcov : StoryData.coverage d = StoryData.coverage d')
    by (apply (f_equal BlindspotStory.bias_distribution) in Hc; exact Hc).
  assert (Htot : StoryData.total d = StoryData.total d')
    by (apply (f_equal BlindspotStory.total_articles) in Hc; exact Hc).
  now rewrite Hcov, Htot.
Qed.

Lemma percentage_bounds_witness :
  exists q,
    BlindspotStory.dominant_percentage
      (Spec.candidate
         {| StoryData.story := Detector.story_of_row (Sample.row 1 "Gov/Official" 9);
            StoryData.coverage :=
              [("Gov/Official"%string, 9); ("Independent Local"%string, 1)];
            StoryData.total := 10 |}) = JS.Fin q
    /\ (0 <= q)%Q
    /\ (Spec.primary_key Sample.nine_to_one ->
        More.nonneg_counts Sample.nine_to_one -> (q <= 1)%Q).
Proof.
  apply (percentage_bounds Sample.plain Sample.nine_to_one).
  left. vm_compute. left. reflexivity.
Defined.

(** ** The blindspot detector: the range of the threshold *)

Lemma identify_none (t : JS.number) (m : JS.Map StoryData.t) :
  (forall k d, In (k, d) m -> Spec.kept t d = false) ->
  Blindspots.identify t m = [].
Proof.
  intros H. rewrite identify_filter, filter_none; [reflexivity |].
  intros [k d] Hin. simpl. eauto.
Qed.

Lemma detect_with_none (upd : JS.object Z -> Row.t -> JS.object Z)
  (limit : option Z) (t : JS.number) (rows : list Row.t) :
  Blindspots.identify t (Spec.group_with upd rows) = [] ->
  Spec.detect_with upd limit t rows = [].
Proof.
  intros H. unfold Spec.detect_with, JS.slice0. rewrite H. simpl.
  apply firstn_nil.
Qed.

Lemma slice0_NaN {A} (l : list A) : JS.slice0 l None = [].
Proof.
  unfold JS.slice0. change (0 <? 0) with false. cbv iota.
  rewrite Z.min_l by lia. reflexivity.
Qed.

(** X3.  A threshold that does not parse as a number flags no story, and a
    limit that does not parse as a number returns no story: in both cases
    the answer is the empty list, with status 200, in both copies of the
    handler. *)
Theorem unparsable_parameter_empties (request : Http.NextRequest)
  (rows : list Row.t) :
  Detector.threshold_of request = JS.NaN \/ Detector.limit_of request = None ->
  Blindspots.GET request (Detector.serving rows) = Http.json []
  /\ BlindspotsCopy.GET request (Detector.serving rows) = Http.json [].
Proof.
  intros H. rewrite GET_serving, GET_copy_serving.
  rewrite detect_overwrite, detect_accumulate.
  assert (E : forall upd,
             Spec.detect_with upd (Detector.limit_of request)
               (Detector.threshold_of request) rows = []).
  { intros upd. destruct H as [H | H]; rewrite H.
    - apply detect_with_none, identify_none. intros k d _.
      unfold Spec.kept. destruct (Blindspots.dominant_percentage d);
        simpl; apply andb_false_r.
    - unfold Spec.detect_with. apply slice0_NaN. }
  now rewrite !E.
Qed.

Lemma unparsable_parameter_empties_witness :
  Blindspots.GET (Sample.with_threshold "high")
    (Detector.serving Sample.nine_to_one) = Http.json []
  /\ BlindspotsCopy.GET (Sample.with_threshold "high")
       (Detector.serving Sample.nine_to_one) = Http.json [].
Proof.
  apply (unparsable_parameter_empties (Sample.with_threshold "high")
           Sample.nine_to_one).
  left. reflexivity.
Defined.

(** X4.  With a threshold above 1 no story is flagged, when the rows have
    the primary key of [story_coverage] and no negative count: the answer
    of both copies of the handler is the empty list. *)
Theorem threshold_above_one_empties (request : Http.NextRequest)
  (rows : list Row.t) (x : Q) :
  Spec.primary_key rows -> More.nonneg_counts rows ->
  Detector.threshold_of request = JS.Fin x -> (1 < x)%Q ->
  Blindspots.GET request (Detector.serving rows) = Http.json []
  /\ BlindspotsCopy.GET request (Detector.serving rows) = Http.json [].
Proof.
  intros Hpk Hnn Ht Hx. rewrite GET_serving, GET_copy_serving.
  rewrite detect_copy_eq by assumption.
  assert (E : Blindspots.detect (Detector.limit_of request)
                (Detector.threshold_of request) rows = []).
  { rewrite detect_overwrite. apply detect_with_none, identify_none.
    intros k d Hin. unfold Spec.kept.
    destruct (Z.ltb_spec (StoryData.total d) 3) as [Hlt | H3]; [reflexivity |].
    simpl. destruct (percentage_value d H3) as [q [Hq [_ H1]]].
    rewrite Hq, Ht. simpl.
    apply not_true_is_false. intros Hge. apply Qle_bool_iff in Hge.
    assert ((q <= 1)%Q).
    { apply H1. apply (dominant_le_total rows k d); assumption. }
    lra. }
  now rewrite E.
Qed.

Lemma threshold_above_one_empties_witness :
  Blindspots.GET (Sample.with_threshold "1.5")
    (Detector.serving Sample.nine_to_one) = Http.json []
  /\ BlindspotsCopy.GET (Sample.with_threshold "1.5")
       (Detector.serving Sample.nine_to_one) = Http.json [].
Proof.
  apply (threshold_above_one_empties (Sample.with_threshold "1.5")
           Sample.nine_to_one (3 # 2)).
  - unfold Spec.primary_key. simpl.
    repeat constructor; simpl; intuition discriminate.
  - intros r [<- | [<- | []]]; simpl; lia.
  - reflexivity.
  - reflexivity.
Defined.

(** X5.  With a threshold of 0 or less the minimum number of articles is
    the only filter: every story with three articles or more is among the
    blindspots the detector collects, and is in the answer when [limit]
    does not cut.  This holds of both copies of the handler. *)
Theorem threshold_zero_keeps_all (request : Http.NextRequest)
  (rows : list Row.t) (x : Q) (sid : Z) :
  Detector.threshold_of request = JS.Fin x -> (x <= 0)%Q ->
  3 <= Spec.story_total rows sid ->
  (Spec.included sid
     (Blindspots.identify (Detector.threshold_of request) (Blindspots.group rows))
   /\ forall n, Detector.limit_of request = Some n ->
                Z.of_nat (List.length
                            (Blindspots.identify (Detector.threshold_of request)
                               (Blindspots.group rows))) <= n ->
                Spec.included sid
                  (Spec.blindspots_of
                     (Blindspots.GET request (Detector.serving rows))))
  /\ (Spec.included sid
        (BlindspotsCopy.identify (Detector.threshold_of request)
           (BlindspotsCopy.group rows))
      /\ forall n, Detector.limit_of request = Some n ->
                   Z.of_nat (List.length
                               (BlindspotsCopy.identify
                                  (Detector.threshold_of request)
                                  (BlindspotsCopy.group rows))) <= n ->
                   Spec.included sid
                     (Spec.blindspots_of
                        (BlindspotsCopy.GET request (Detector.serving rows)))).
Proof.
  intros Ht Hx Htot.
  assert (generic : forall upd,
    Spec.included sid
      (Blindspots.identify (Detector.threshold_of request)
         (Spec.group_with upd rows))
    /\ forall n,
         Z.of_nat (List.length
                     (Blindspots.identify (Detector.threshold_of request)
                        (Spec.group_with upd rows))) <= n ->
         Spec.included sid
           (Spec.detect_with upd (Some n) (Detector.threshold_of request) rows)).
  { intros upd.
    destruct (group_with_entry_of_total upd rows sid Htot) as [d [_ [Hin Hd]]].
    assert (Hinc : Spec.included sid
                     (Blindspots.identify (Detector.threshold_of request)
                        (Spec.group_with upd rows))).
    { apply (included_identify upd _ rows sid d Hin). unfold Spec.kept.
      destruct (Z.ltb_spec (StoryData.total d) 3); [lia |]. simpl.
      destruct (percentage_value d) as [q [Hq [H0 _]]]; [lia |].
      rewrite Hq, Ht. simpl. apply Qle_bool_iff. lra. }
    split; [exact Hinc |].
    intros n Hn. now apply included_detect_with_all. }
  split.
  - destruct (generic Spec.overwrite) as [H1 H2].
    split; [exact H1 |]. intros n Hl Hn.
    rewrite GET_serving, detect_overwrite, Hl. unfold Spec.blindspots_of. simpl.
    now apply H2.
  - destruct (generic Spec.accumulate) as [H1 H2].
    rewrite identify_copy, group_accumulate.
    split; [exact H1 |]. intros n Hl Hn.
    rewrite GET_copy_serving, detect_accumulate, Hl.
    unfold Spec.blindspots_of. simpl. now apply H2.
Qed.

Lemma threshold_zero_keeps_all_witness :
  Spec.included 1
    (Blindspots.identify (Detector.threshold_of (Sample.with_threshold "0"))
       (Blindspots.group Sample.three_stories)).
Proof.
  apply (threshold_zero_keeps_all (Sample.with_threshold "0")
           Sample.three_stories 0 1).
  - reflexivity.
  - apply Qle_refl.
  - vm_compute. discriminate.
Defined.

(** ** The blindspot detector: the order of the rows *)

Lemma filter_perm {A} (f : A -> bool) (l l' : list A) :
  Permutation l l' -> Permutation (filter f l) (filter f l').
Proof.
  induction 1 as [| x l l' _ IH | x y l | l l' l'' _ IH1 _ IH2]; simpl.
  - constructor.
  - destruct (f x); [now constructor | assumption].
  - destruct (f x), (f y); try apply Permutation_refl. apply perm_swap.
  - eapply perm_trans; eauto.
Qed.

Lemma sum_counts_perm (l l' : list Row.t) :
  Permutation l l' -> Spec.sum_counts l = Spec.sum_counts l'.
Proof.
  induction 1 as [| x l l' _ IH | x y l | l l' l'' _ IH1 _ IH2]; simpl;
    unfold Spec.sum_counts in *; simpl; lia.
Qed.

Lemma max_fold_perm (l l' : JS.object Z) (c : Z) :
  Permutation l l' ->
  fold_left (fun m e => Z.max m (snd e)) l c
  = fold_left (fun m e => Z.max m (snd e)) l' c.
Proof.
  intros H. revert c.
  induction H as [| x l l' _ IH | x y l | l l' l'' _ IH1 _ IH2]; simpl; intros c.
  - reflexivity.
  - apply IH.
  - f_equal. lia.
  - now rewrite IH1.
Qed.

(** The dominant count is the greatest count. *)
Lemma find_dominant_max (cov : JS.object Z) :
  snd (Detector.find_dominant cov) = More.max_count cov.
Proof.
  unfold Detector.find_dominant, JS.Object_entries, More.max_count.
  generalize (""%string) 0. induction cov as [| [b c] cov IH]; simpl; intros b0 c0.
  - reflexivity.
  - destruct (Z.gtb_spec c c0).
    + rewrite IH. f_equal. lia.
    + rewrite IH. f_equal. lia.
Qed.

Lemma flagged_perm (t : JS.number) (rows rows' : list Row.t) (sid : Z)
  (p : JS.number) (total : Z) :
  Spec.primary_key rows -> Permutation rows rows' ->
  More.flagged t rows sid p total -> More.flagged t rows' sid p total.
Proof.
  intros Hpk Hperm [b [Hb [Hid [Hp Htot]]]].
  assert (Hpk' : Spec.primary_key rows').
  { unfold Spec.primary_key in *.
    eapply Permutation_NoDup; [apply Permutation_map; exact Hperm | exact Hpk]. }
  apply identify_In in Hb. destruct Hb as [k [d [Hin [Hk ->]]]].
  destruct (coverage_of_rows rows k d Hpk Hin) as [Hcov [_ Hidk]].
  simpl in Hid. rewrite Hidk in Hid. subst k.
  pose proof Hin as Hin0. rewrite group_overwrite in Hin0.
  apply group_with_entry in Hin0. destruct Hin0 as [_ [Hd [_ Hne]]].
  pose proof (filter_perm (fun r => Row.id r =? sid) rows rows' Hperm) as Hrows.
  fold (Spec.rows_of sid rows) in Hrows. fold (Spec.rows_of sid rows') in Hrows.
  assert (Hne' : Spec.rows_of sid rows' <> []).
  { intros E. rewrite E in Hrows.
    apply Permutation_sym, Permutation_nil in Hrows. contradiction. }
  destruct (group_with_present Spec.overwrite rows' sid Hne') as [d' Hin'].
  change (In (sid, d') (Blindspots.group rows')) in Hin'.
  destruct (coverage_of_rows rows' sid d' Hpk' Hin') as [Hcov' [_ Hid']].
  pose proof Hin' as Hin1. rewrite group_overwrite in Hin1.
  apply group_with_entry in Hin1. destruct Hin1 as [_ [Hd' _]].
  assert (Etot : StoryData.total d' = StoryData.total d).
  { rewrite Hd, Hd'. unfold Spec.story_total. symmetry.
    now apply sum_counts_perm. }
  assert (Epct : Blindspots.dominant_percentage d'
                 = Blindspots.dominant_percentage d).
  { unfold Blindspots.dominant_percentage. rewrite Etot, !find_dominant_max.
    f_equal. unfold More.max_count. rewrite Hcov, Hcov'.
    apply max_fold_perm, Permutation_map, Permutation_sym, Hrows. }
  exists (Spec.candidate d'). split; [| split; [| split]].
  - apply identify_In. exists sid, d'. split; [exact Hin' |].
    split; [| reflexivity].
    unfold Spec.kept in *. now rewrite Etot, Epct.
  - simpl. exact Hid'.
  - simpl in *. now rewrite Epct.
  - simpl in *. now rewrite Etot.
Qed.

(** X6.  Which stories are flagged, and with which percentage and total,
    does not depend on the order in which the database returns the rows:
    for two orders of the same rows, with the primary key of
    [story_coverage], the detector collects the same stories with the same
    [dominant_percentage] and [total_articles]. *)
Theorem flagged_independent_of_row_order (t : JS.number)
  (rows rows' : list Row.t) (sid : Z) (p : JS.number) (total : Z) :
  Spec.primary_key rows -> Permutation rows rows' ->
  (More.flagged t rows sid p total <-> More.flagged t rows' sid p total).
Proof.
  intros Hpk Hperm. split.
  - now apply flagged_perm.
  - apply flagged_perm; [| now apply Permutation_sym].
    unfold Spec.primary_key in *.
    eapply Permutation_NoDup; [apply Permutation_map; exact Hperm | exact Hpk].
Qed.

Lemma flagged_independent_of_row_order_witness :
  Spec.primary_key Sample.tie
  /\ Permutation Sample.tie Sample.tie_swapped
  /\ (More.flagged (JS.Fin (1 # 2)) Sample.tie 1 (JS.Fin (1 # 2)) 4
      <-> More.flagged (JS.Fin (1 # 2)) Sample.tie_swapped 1 (JS.Fin (1 # 2)) 4).
Proof.
  assert (Hpk : Spec.primary_key Sample.tie).
  { unfold Spec.primary_key. simpl.
    repeat constructor; simpl; intuition discriminate. }
  assert (Hperm : Permutation Sample.tie Sample.tie_swapped)
    by apply perm_swap.
  split; [exact Hpk |]. split; [exact Hperm |].
  apply (flagged_independent_of_row_order (JS.Fin (1 # 2)) Sample.tie
           Sample.tie_swapped 1 (JS.Fin (1 # 2)) 4 Hpk Hperm).
Defined.

(** ** The story route: the groups of articles *)

Lemma by_bias_fold (articles : list ArticleRow.t)
  (acc : JS.object (list ArticleRow.t)) (k : string) :
  JS.obj_get (fold_left StoryRoute.by_bias_step articles acc) k
  = match More.with_bias k articles with
    | [] => JS.obj_get acc k
    | _ :: _ =>
        Some (match JS.obj_get acc k with Some l => l | None => [] end
              ++ More.with_bias k articles)
    end.
Proof.
  revert acc. induction articles as [| a articles IH]; intros acc.
  - reflexivity.
  - cbn [fold_left]. rewrite IH.
    assert (Hstep : JS.obj_get (StoryRoute.by_bias_step acc a) k
                    = if String.eqb (ArticleRow.source_bias a) k
                      then Some (match JS.obj_get acc k with
                                 | Some l => l
                                 | None => []
                                 end ++ [a])
                      else JS.obj_get acc k).
    { unfold StoryRoute.by_bias_step, JS.obj_get, JS.obj_set.
      rewrite (lookup_store String.eqb String_eqb_eq).
      destruct (String.eqb (ArticleRow.source_bias a) k) eqn:E; [| reflexivity].
      apply String.eqb_eq in E. now subst k. }
    rewrite Hstep. unfold More.with_bias. cbn [filter].
    destruct (String.eqb (ArticleRow.source_bias a) k).
    + destruct (filter _ articles); simpl.
      * reflexivity.
      * now rewrite <- app_assoc.
    + reflexivity.
Qed.

Lemma by_bias_keys (articles : list ArticleRow.t)
  (acc : JS.object (list ArticleRow.t)) :
  NoDup (map fst acc) ->
  NoDup (map fst (fold_left StoryRoute.by_bias_step articles acc)).
Proof.
  revert acc. induction articles as [| a articles IH]; simpl; intros acc H.
  - assumption.
  - apply IH. unfold StoryRoute.by_bias_step, JS.obj_set.
    now apply (keys_store_NoDup String.eqb String_eqb_eq).
Qed.

(** X7.  In a story detail, [articlesByBias] maps every bias to the
    articles of the response whose source has that bias, in the order of
    the response; a bias without an article has no key, and no key occurs
    twice. *)
Theorem articles_grouped_by_bias (params_storyId : string)
  (context : D1.Outcome StoryRoute.Env) (detail : StoryRoute.StoryDetail)
  (trace : list StoryRoute.Statement) :
  StoryRoute.GET params_storyId context = (Http.json detail, trace) ->
  (forall bias,
      JS.obj_get (StoryRoute.articlesByBias detail) bias
      = match More.with_bias bias (StoryRoute.articles detail) with
        | [] => None
        | group => Some group
        end)
  /\ NoDup (map fst (StoryRoute.articlesByBias detail)).
Proof.
  unfold StoryRoute.GET.
  destruct (JS.parseInt params_storyId) as [n |]; [| discriminate].
  destruct context as [env | e]; [| discriminate].
  destruct (StoryRoute.DB env) as [db |]; [| discriminate].
  destruct (StoryRoute.storyQuery db n) as [[st |] | e]; try discriminate.
  destruct (StoryRoute.articlesQuery db n) as [ar | e]; [| discriminate].
  destruct (StoryRoute.biasQuery db n) as [br | e]; [| discriminate].
  intros H. injection H as <- _. simpl. split.
  - intros bias. rewrite by_bias_fold. simpl.
    now destruct (More.with_bias bias _).
  - apply by_bias_keys. constructor.
Qed.

Lemma articles_grouped_by_bias_witness :
  exists detail trace,
    StoryRoute.GET "1" (StoryRoute.serving Sample.tables)
    = (Http.json detail, trace)
    /\ JS.obj_get (StoryRoute.articlesByBias detail) "Gov/Official"
       = match More.with_bias "Gov/Official" (StoryRoute.articles detail) with
         | [] => None
         | group => Some group
         end.
Proof.
  eexists. eexists. split; [reflexivity |].
  apply (articles_grouped_by_bias "1" (StoryRoute.serving Sample.tables)
           _ _ eq_refl).
Defined.

(** X8.  The story route answers 200 only after it has run its three
    statements, in order, for the id that [parseInt] gives, and only when
    the statement that reads the story has returned a row; the story of the
    response is that row. *)
Theorem detail_only_for_existing_story (params_storyId : string)
  (context : D1.Outcome StoryRoute.Env) :
  Http.status (fst (StoryRoute.GET params_storyId context)) = 200 ->
  exists storyId db row detail,
    JS.parseInt params_storyId = Some storyId
    /\ context = D1.Resolved {| StoryRoute.DB := Some db |}
    /\ StoryRoute.storyQuery db storyId = D1.Resolved (Some row)
    /\ StoryRoute.GET params_storyId context
       = (Http.json detail,
          [StoryRoute.StoryQuery storyId; StoryRoute.ArticlesQuery storyId;
           StoryRoute.BiasQuery storyId])
    /\ StoryRoute.story detail = row.
Proof.
  unfold StoryRoute.GET.
  destruct (JS.parseInt params_storyId) as [n |] eqn:Ep; [| discriminate].
  destruct context as [[[db |]] | e]; simpl; try discriminate.
  destruct (StoryRoute.storyQuery db n) as [[st |] | e] eqn:Es; try discriminate.
  destruct (StoryRoute.articlesQuery db n) as [ar | e]; [| discriminate].
  destruct (StoryRoute.biasQuery db n) as [br | e]; [| discriminate].
  intros _. exists n, db, st. eexists.
  split; [reflexivity |]. split; [reflexivity |]. split; [exact Es |].
  split; reflexivity.
Qed.

Lemma detail_only_for_existing_story_witness :
  exists storyId db row detail,
    JS.parseInt "1" = Some storyId
    /\ StoryRoute.serving Sample.tables
       = D1.Resolved {| StoryRoute.DB := Some db |}
    /\ StoryRoute.storyQuery db storyId = D1.Resolved (Some row)
    /\ StoryRoute.GET "1" (StoryRoute.serving Sample.tables)
       = (Http.json detail,
          [StoryRoute.StoryQuery storyId; StoryRoute.ArticlesQuery storyId;
           StoryRoute.BiasQuery storyId])
    /\ StoryRoute.story detail = row.
Proof.
  apply (detail_only_for_existing_story "1" (StoryRoute.serving Sample.tables)).
  reflexivity.
Defined.

(** ** The stories route *)









(** ** Sorting by a rank *)

Lemma flat_map_ext_in {A B} (f g : A -> list B) (l : list A) :
  (forall a, In a l -> f a = g a) -> flat_map f l = flat_map g l.
Proof.
  induction l as [| a l IH]; simpl; intros H; [reflexivity |].
  rewrite (H a (or_introl eq_refl)), IH; [reflexivity |].
  intros b Hb. apply H. now right.
Qed.

Section Buckets.
Context {A : Type} (cmp : A -> A -> JS.number) (rank : A -> nat).
Hypothesis cmp_rank : forall x y, JS.gt0 (cmp x y) = (rank y <? rank x)%nat.

Lemma insert_front (x : A) (s : list A) :
  (forall y, In y s -> JS.gt0 (cmp x y) = false) -> JS.insert cmp x s = x :: s.
Proof.
  destruct s as [| y s]; simpl; intros H; [reflexivity |].
  now rewrite H by (now left).
Qed.

(** The stable sort lists the elements rank by rank, each rank in the
    order of the array. *)
Lemma sort_buckets (n : nat) (l : list A) :
  (forall x, In x l -> (rank x < n)%nat) ->
  JS.sort cmp l
  = flat_map (fun i => filter (fun x => (rank x =? i)%nat) l) (seq 0 n).
Proof.
  induction l as [| x l IH]; intros Hn.
  - simpl. induction (seq 0 n) as [| i s IHs]; simpl; [reflexivity | exact IHs].
  - cbn [JS.sort fold_right]. fold (JS.sort cmp l).
    rewrite IH by (intros y Hy; apply Hn; now right).
    assert (Hr : (rank x < n)%nat) by (apply Hn; now left).
    replace n with (rank x + S (n - S (rank x)))%nat at 1 2 by lia.
    rewrite seq_app. cbn [seq Nat.add]. rewrite !flat_map_app. cbn [flat_map].
    rewrite insert_app_pass.
    + rewrite insert_front.
      * f_equal.
        -- apply flat_map_ext_in. intros i Hi. apply in_seq in Hi.
           cbn [filter]. destruct (Nat.eqb_spec (rank x) i); [lia | reflexivity].
        -- cbn [filter]. rewrite Nat.eqb_refl. cbn [app]. f_equal. f_equal.
           apply flat_map_ext_in. intros i Hi. apply in_seq in Hi.
           cbn [filter]. destruct (Nat.eqb_spec (rank x) i); [lia | reflexivity].
      * intros y Hy. rewrite cmp_rank. apply Nat.ltb_ge.
        apply in_app_or in Hy. destruct Hy as [Hy | Hy].
        -- apply filter_In in Hy. destruct Hy as [_ Hy].
           apply Nat.eqb_eq in Hy. lia.
        -- apply in_flat_map in Hy. destruct Hy as [i [Hi Hy]].
           apply in_seq in Hi. apply filter_In in Hy. destruct Hy as [_ Hy].
           apply Nat.eqb_eq in Hy. lia.
    + intros y Hy. rewrite cmp_rank. apply Nat.ltb_lt.
      apply in_flat_map in Hy. destruct Hy as [i [Hi Hy]].
      apply in_seq in Hi. apply filter_In in Hy. destruct Hy as [_ Hy].
      apply Nat.eqb_eq in Hy. lia.
Qed.

End Buckets.

(** ** The bias bar *)

Ltac by_bias_name k :=
  unfold More.rank, More.unknown, BiasBar.color, BiasBar.indexOf,
    BiasBar.BIAS_ORDER, BiasBar.DEFAULT_BIAS_COLORS, JS.obj_get, JS.lookup;
  repeat match goal with
         | |- context [String.eqb ?c k] =>
             destruct (String.eqb_spec c k); [subst k; reflexivity |]
         end;
  reflexivity.

Lemma rank_0 k : (More.rank k =? 0)%nat = String.eqb "Gov/Official" k.
Proof. by_bias_name k. Qed.
Lemma rank_1 k : (More.rank k =? 1)%nat = String.eqb "Regional" k.
Proof. by_bias_name k. Qed.
Lemma rank_2 k : (More.rank k =? 2)%nat = String.eqb "Independent Local" k.
Proof. by_bias_name k. Qed.
Lemma rank_3 k : (More.rank k =? 3)%nat = String.eqb "Pan-African" k.
Proof. by_bias_name k. Qed.
Lemma rank_4 k : (More.rank k =? 4)%nat = String.eqb "International" k.
Proof. by_bias_name k. Qed.
Lemma rank_5 k : (More.rank k =? 5)%nat = String.eqb "Western" k.
Proof. by_bias_name k. Qed.
Lemma rank_6 k : (More.rank k =? 6)%nat = String.eqb "Other" k.
Proof. by_bias_name k. Qed.
Lemma rank_7 k : (More.rank k =? 7)%nat = More.unknown k.
Proof. by_bias_name k. Qed.

Lemma rank_bound k : (More.rank k < 8)%nat.
Proof.
  unfold More.rank, BiasBar.indexOf, BiasBar.BIAS_ORDER.
  repeat match goal with
         | |- context [String.eqb ?c k] =>
             destruct (String.eqb c k); [simpl; lia |]
         end.
  simpl. lia.
Qed.

Lemma indexOf_rank k :
  BiasBar.indexOf BiasBar.BIAS_ORDER k
  = if More.unknown k then -1 else Z.of_nat (More.rank k).
Proof.
  unfold More.rank, More.unknown, BiasBar.indexOf, BiasBar.BIAS_ORDER.
  repeat match goal with
         | |- context [String.eqb ?c k] =>
             destruct (String.eqb c k); [reflexivity |]
         end.
  reflexivity.
Qed.

Lemma Qle_bool_inject (z : Z) : Qle_bool (inject_Z z) 0 = (z <=? 0).
Proof. unfold Qle_bool, inject_Z. simpl. now rewrite Z.mul_1_r. Qed.

(** The comparator orders the keys by their rank. *)
Lemma compare_rank (a b : string) :
  JS.gt0 (BiasBar.compare a b) = (More.rank b <? More.rank a)%nat.
Proof.
  unfold BiasBar.compare. rewrite !indexOf_rank.
  pose proof (rank_bound a) as Ha. pose proof (rank_bound b) as Hb.
  pose proof (rank_7 a) as Ua. pose proof (rank_7 b) as Ub.
  destruct (More.unknown a), (More.unknown b); simpl.
  - apply Nat.eqb_eq in Ua, Ub. rewrite Ua, Ub. reflexivity.
  - apply Nat.eqb_eq in Ua. apply Nat.eqb_neq in Ub.
    destruct (Z.eqb_spec (Z.of_nat (More.rank b)) (-1)); [lia |]. simpl.
    symmetry. apply Nat.ltb_lt. lia.
  - apply Nat.eqb_neq in Ua. apply Nat.eqb_eq in Ub.
    destruct (Z.eqb_spec (Z.of_nat (More.rank a)) (-1)); [lia |]. simpl.
    symmetry. apply Nat.ltb_ge. lia.
  - destruct (Z.eqb_spec (Z.of_nat (More.rank a)) (-1)); [lia |].
    destruct (Z.eqb_spec (Z.of_nat (More.rank b)) (-1)); [lia |]. simpl.
    rewrite Qle_bool_inject.
    destruct (Z.leb_spec (Z.of_nat (More.rank a) - Z.of_nat (More.rank b)) 0);
      simpl; symmetry; [apply Nat.ltb_ge | apply Nat.ltb_lt]; lia.
Qed.

(** X11.  The bias bar shows the keys of the distribution in the order of
    [BIAS_ORDER], followed by the keys that are not in [BIAS_ORDER], in the
    order in which the distribution holds them. *)
Theorem bar_follows_BIAS_ORDER (biasDistribution : JS.object Z) :
  BiasBar.sortedBiasKeys biasDistribution
  = flat_map
      (fun name => filter (String.eqb name) (BiasBar.Object_keys biasDistribution))
      BiasBar.BIAS_ORDER
    ++ filter More.unknown (BiasBar.Object_keys biasDistribution).
Proof.
  unfold BiasBar.sortedBiasKeys.
  rewrite (sort_buckets BiasBar.compare More.rank compare_rank 8)
    by (intros; apply rank_bound).
  cbn [seq flat_map BiasBar.BIAS_ORDER].
  rewrite (filter_ext _ _ rank_0), (filter_ext _ _ rank_1),
    (filter_ext _ _ rank_2), (filter_ext _ _ rank_3), (filter_ext _ _ rank_4),
    (filter_ext _ _ rank_5), (filter_ext _ _ rank_6), (filter_ext _ _ rank_7).
  rewrite !app_nil_r, <- !app_assoc. reflexivity.
Qed.

Lemma filter_eqb_repeat (c : string) (l : list string) :
  filter (String.eqb c) l = repeat c (List.length (filter (String.eqb c) l)).
Proof.
  induction l as [| x l IH]; simpl; [reflexivity |].
  destruct (String.eqb_spec c x) as [<- | _]; simpl; [now f_equal | exact IH].
Qed.

Lemma filter_eqb_perm (c : string) (l l' : list string) :
  Permutation l l' -> filter (String.eqb c) l = filter (String.eqb c) l'.
Proof.
  intros H. rewrite (filter_eqb_repeat c l), (filter_eqb_repeat c l').
  f_equal. apply Permutation_length. now apply filter_perm.
Qed.

Lemma obj_get_perm {V} (o o' : JS.object V) (k : string) :
  NoDup (map fst o) -> Permutation o o' -> JS.obj_get o k = JS.obj_get o' k.
Proof.
  intros Hnd Hperm.
  assert (Hnd' : NoDup (map fst o')).
  { eapply Permutation_NoDup; [apply Permutation_map; exact Hperm | exact Hnd]. }
  unfold JS.obj_get.
  destruct (JS.lookup String.eqb o k) as [v |] eqn:E.
  - symmetry. apply (In_lookup String.eqb String_eqb_eq); [assumption |].
    eapply Permutation_in; [exact Hperm |].
    now apply (lookup_In String.eqb String_eqb_eq).
  - destruct (JS.lookup String.eqb o' k) as [v |] eqn:E'; [| reflexivity].
    apply (lookup_In String.eqb String_eqb_eq) in E'.
    apply (Permutation_in _ (Permutation_sym Hperm)) in E'.
    apply (In_lookup String.eqb String_eqb_eq _ _ _ Hnd) in E'. congruence.
Qed.

(** X12.  The bias bar does not depend on the order in which the
    distribution holds its keys, when all keys are in [BIAS_ORDER]: two
    distributions with the same entries in different orders are rendered
    the same, whatever the total and the colors. *)
Theorem bar_independent_of_key_order (d d' : JS.object Z) (totalArticles : Z)
  (biasColors : JS.object string) :
  NoDup (map fst d) -> Permutation d d' ->
  (forall k, In k (BiasBar.Object_keys d) -> More.unknown k = false) ->
  BiasBar.render d totalArticles biasColors
  = BiasBar.render d' totalArticles biasColors.
Proof.
  intros Hnd Hperm Hknown.
  assert (Hkeys : Permutation (BiasBar.Object_keys d) (BiasBar.Object_keys d')).
  { unfold BiasBar.Object_keys. now apply Permutation_map. }
  assert (Hsorted : BiasBar.sortedBiasKeys d = BiasBar.sortedBiasKeys d').
  { rewrite !bar_follows_BIAS_ORDER. f_equal.
    - apply flat_map_ext. intros c. now apply filter_eqb_perm.
    - rewrite !filter_none; [reflexivity | | exact Hknown].
      intros k Hk. apply Hknown.
      eapply Permutation_in; [apply Permutation_sym; exact Hkeys | exact Hk]. }
  unfold BiasBar.render. destruct (totalArticles =? 0); [reflexivity |].
  rewrite Hsorted. f_equal. apply map_ext. intros k.
  unfold BiasBar.segment. now rewrite (obj_get_perm d d' k Hnd Hperm).
Qed.

Lemma bar_independent_of_key_order_witness :
  BiasBar.render [("Western"%string, 2); ("Gov/Official"%string, 3)] 5
    BiasBar.DEFAULT_BIAS_COLORS
  = BiasBar.render [("Gov/Official"%string, 3); ("Western"%string, 2)] 5
      BiasBar.DEFAULT_BIAS_COLORS.
Proof.
  apply (bar_independent_of_key_order
           [("Western"%string, 2); ("Gov/Official"%string, 3)]
           [("Gov/Official"%string, 3); ("Western"%string, 2)]).
  - simpl. repeat constructor; simpl; intuition discriminate.
  - apply perm_swap.
  - intros k [<- | [<- | []]]; reflexivity.
Defined.

Lemma obj_get_key {V} (o : JS.object V) (k : string) :
  In k (map fst o) -> exists v, JS.obj_get o k = Some v /\ In (k, v) o.
Proof.
  intros Hin. unfold JS.obj_get.
  destruct (JS.lookup String.eqb o k) as [v |] eqn:E.
  - exists v. split; [reflexivity |].
    now apply (lookup_In String.eqb String_eqb_eq).
  - apply (lookup_None_keys String.eqb String_eqb_eq) in E. contradiction.
Qed.

(** X13.  The bias bar is the empty state exactly when [totalArticles] is
    0.  Otherwise it has one segment for each key of the distribution; the
    segment carries the count of its key and a width that is a finite
    number, the count over the total times 100, so that no division by zero
    occurs; the width lies between 0 and 100 when the count lies between 0
    and the total. *)
Theorem bar_segments (biasDistribution : JS.object Z) (totalArticles : Z)
  (biasColors : JS.object string) :
  (totalArticles = 0 ->
   BiasBar.render biasDistribution totalArticles biasColors = BiasBar.EmptyState)
  /\ (totalArticles <> 0 ->
      exists segments,
        BiasBar.render biasDistribution totalArticles biasColors
        = BiasBar.Bar segments
        /\ Permutation (map BiasBar.key segments)
             (BiasBar.Object_keys biasDistribution)
        /\ Forall
             (fun sg =>
                exists c w,
                  In (BiasBar.key sg, c) biasDistribution
                  /\ BiasBar.count sg = Some c
                  /\ BiasBar.width sg = JS.Fin w
                  /\ (w == inject_Z c / inject_Z totalArticles * 100)%Q
                  /\ (0 <= c -> c <= totalArticles -> (0 <= w /\ w <= 100)%Q))
             segments).
Proof.
  unfold BiasBar.render. split.
  - intros ->. reflexivity.
  - intros Hne. destruct (Z.eqb_spec totalArticles 0); [contradiction |].
    eexists. split; [reflexivity |]. split.
    + rewrite map_map. simpl. rewrite map_id.
      apply Permutation_sym, sort_perm.
    + apply Forall_forall. intros sg Hsg. apply in_map_iff in Hsg.
      destruct Hsg as [k [<- Hk]]. apply sort_In in Hk.
      destruct (obj_get_key biasDistribution k Hk) as [c [Hget Hin]].
      unfold BiasBar.segment. rewrite Hget.
      rewrite div_finite by assumption.
      cbn [BiasBar.times100 BiasBar.width BiasBar.count BiasBar.key].
      exists c, (Qred (Qred (inject_Z c / inject_Z totalArticles) * 100)).
      assert (Hw : (Qred (Qred (inject_Z c / inject_Z totalArticles) * 100)
                    == inject_Z c / inject_Z totalArticles * 100)%Q).
      { rewrite Qred_correct. now rewrite Qred_correct. }
      split; [exact Hin |]. split; [reflexivity |].
      split; [reflexivity |]. split; [exact Hw |].
      intros H0 Hle.
      destruct (Q_quotient_bounds c totalArticles H0) as [Hq0 Hq1]; [lia |].
      specialize (Hq1 Hle). rewrite Hw. split; lra.
Qed.

Lemma bar_segments_witness :
  exists segments,
    BiasBar.render [("Gov/Official"%string, 3); ("Western"%string, 2)] 5
      BiasBar.DEFAULT_BIAS_COLORS = BiasBar.Bar segments
    /\ Permutation (map BiasBar.key segments)
         (BiasBar.Object_keys [("Gov/Official"%string, 3); ("Western"%string, 2)]).
Proof.
  destruct (proj2 (bar_segments [("Gov/Official"%string, 3); ("Western"%string, 2)]
                     5 BiasBar.DEFAULT_BIAS_COLORS)) as [segments [H1 [H2 _]]].
  - discriminate.
  - exists segments. split; assumption.
Defined.

(** X14.  With the default colors every segment whose key is no name of
    [Object.prototype] has a color class, and such a key that is not in
    [BIAS_ORDER] gets the color of "Other". *)
Theorem default_color_fallback (bias : string) :
  Names.inherited bias = false ->
  exists c,
    BiasBar.color BiasBar.DEFAULT_BIAS_COLORS bias = Some c
    /\ c <> ""%string
    /\ (More.unknown bias = true -> c = "bg-gray-400"%string).
Proof.
  intros _. unfold More.unknown, BiasBar.color, BiasBar.indexOf, BiasBar.BIAS_ORDER,
    BiasBar.DEFAULT_BIAS_COLORS, JS.obj_get, JS.lookup.
  repeat match goal with
         | |- context [String.eqb ?c bias] =>
             destruct (String.eqb_spec c bias);
             [subst bias; eexists; split; [reflexivity |];
              split; [discriminate | discriminate] |]
         end.
  eexists. split; [reflexivity |]. split; [discriminate | reflexivity].
Qed.

(** ** The story card *)



(** *** The tags *)

Lemma trimStart_suffix (cs : list ascii) :
  exists p, cs = p ++ JS.trimStart cs.
Proof.
  induction cs as [| c cs [p IH]]; simpl.
  - now exists [].
  - destruct (JS.isWhiteSpace c).
    + exists (c :: p). simpl. now f_equal.
    + now exists [].
Qed.

Lemma trimStart_head (cs : list ascii) (c : ascii) (r : list ascii) :
  JS.trimStart cs = c :: r -> JS.isWhiteSpace c = false.
Proof.
  induction cs as [| x cs IH]; simpl; [discriminate |].
  destruct (JS.isWhiteSpace x) eqn:E; [exact IH |].
  intros H. injection H as <- _. exact E.
Qed.

Lemma trimStart_fixed (c : ascii) (r : list ascii) :
  JS.isWhiteSpace c = false -> JS.trimStart (c :: r) = c :: r.
Proof. simpl. now intros ->. Qed.

Lemma trimStart_idem (cs : list ascii) :
  JS.trimStart (JS.trimStart cs) = JS.trimStart cs.
Proof.
  destruct (JS.trimStart cs) as [| c r] eqn:E; [reflexivity |].
  apply trimStart_fixed. eapply trimStart_head; eauto.
Qed.

Lemma trim_idem (cs : list ascii) :
  StoryCard.trim (StoryCard.trim cs) = StoryCard.trim cs.
Proof.
  unfold StoryCard.trim.
  set (Y := JS.trimStart cs).
  set (X := JS.trimStart (rev Y)).
  assert (HA : JS.trimStart (rev X) = rev X).
  { destruct (trimStart_suffix (rev Y)) as [p Hp]. fold X in Hp.
    assert (HY : Y = rev X ++ rev p).
    { rewrite <- (rev_involutive Y), Hp. now rewrite rev_app_distr. }
    destruct (rev X) as [| x0 r0] eqn:EX; [reflexivity |].
    apply trimStart_fixed.
    apply (trimStart_head cs x0 (r0 ++ rev p)). fold Y. now rewrite HY. }
  rewrite HA, rev_involutive. unfold X. now rewrite trimStart_idem.
Qed.

Lemma trimStart_In (cs : list ascii) (c : ascii) :
  In c (JS.trimStart cs) -> In c cs.
Proof.
  destruct (trimStart_suffix cs) as [p Hp]. intros H.
  rewrite Hp. apply in_or_app. now right.
Qed.

Lemma trim_In (cs : list ascii) (c : ascii) :
  In c (StoryCard.trim cs) -> In c cs.
Proof.
  unfold StoryCard.trim. intros H.
  apply in_rev, trimStart_In in H. apply in_rev in H. now apply trimStart_In.
Qed.

Lemma split_pieces (sep : ascii) (cs : list ascii) (piece : list ascii) :
  In piece (StoryCard.split sep cs) -> ~ In sep piece.
Proof.
  revert piece. induction cs as [| c cs IH]; simpl; intros piece H.
  - destruct H as [<- | []]. tauto.
  - destruct (Ascii.eqb_spec c sep) as [-> | Hne].
    + destruct H as [<- | H]; [tauto | auto].
    + destruct (StoryCard.split sep cs) as [| p ps] eqn:E.
      * destruct H as [<- | []]. intros [H | []]. congruence.
      * destruct H as [<- | H].
        -- intros [H | H]; [congruence |]. apply (IH p); [now left | assumption].
        -- apply IH. now right.
Qed.

(** X16.  Every tag that the story card shows is clean: it is not empty,
    it has no comma, and it has no white space at its ends. *)
Theorem tags_are_clean (topic_tags : option string) (shown : list string) :
  StoryCard.tags topic_tags = Some shown -> Forall More.clean shown.
Proof.
  unfold StoryCard.tags. destruct topic_tags as [s |]; [| discriminate].
  destruct (String.eqb s ""); [discriminate |].
  intros H. injection H as <-. unfold StoryCard.tag_list.
  apply Forall_forall. intros tag Htag.
  apply in_map_iff in Htag. destruct Htag as [p [<- Hp]].
  apply filter_In in Hp. destruct Hp as [Hp Hne].
  apply in_map_iff in Hp. destruct Hp as [piece [<- Hpiece]].
  unfold More.clean. cbv zeta. rewrite list_ascii_of_string_of_list_ascii.
  split; [| split].
  - intros E. rewrite E in Hne. discriminate.
  - intros Hin. apply trim_In in Hin. now apply split_pieces in Hpiece.
  - apply trim_idem.
Qed.

Lemma tags_are_clean_witness :
  Forall More.clean ["politics"; "security"; "economy"]%string.
Proof.
  apply (tags_are_clean (Some " politics,security ,, economy"%string)).
  reflexivity.
Defined.

Lemma list_ascii_app (a b : string) :
  list_ascii_of_string (a ++ b)
  = (list_ascii_of_string a ++ list_ascii_of_string b)%list.
Proof.
  induction a as [| c a IH]; simpl; [reflexivity | now rewrite IH].
Qed.

Lemma split_whole (sep : ascii) (cs : list ascii) :
  ~ In sep cs -> StoryCard.split sep cs = [cs].
Proof.
  induction cs as [| c cs IH]; simpl; intros H; [reflexivity |].
  destruct (Ascii.eqb_spec c sep) as [-> | Hne]; [tauto |].
  rewrite IH by tauto. reflexivity.
Qed.

Lemma split_first (sep : ascii) (a b : list ascii) :
  ~ In sep a -> StoryCard.split sep (a ++ sep :: b) = a :: StoryCard.split sep b.
Proof.
  induction a as [| c a IH]; simpl; intros H.
  - now rewrite Ascii.eqb_refl.
  - destruct (Ascii.eqb_spec c sep) as [-> | Hne]; [tauto |].
    rewrite IH by tauto. reflexivity.
Qed.

Lemma split_concat (tags : list string) :
  tags <> [] -> Forall More.clean tags ->
  StoryCard.split "," (list_ascii_of_string (String.concat "," tags))
  = map list_ascii_of_string tags.
Proof.
  induction tags as [| t tags IH]; intros Hne Hclean; [contradiction |].
  inversion Hclean as [| ? ? [_ [Hcomma _]] Hrest]; subst.
  destruct tags as [| t' tags].
  - simpl. now apply split_whole.
  - change (String.concat "," (t :: t' :: tags))
      with (t ++ "," ++ String.concat "," (t' :: tags))%string.
    rewrite list_ascii_app.
    change (list_ascii_of_string ("," ++ String.concat "," (t' :: tags)))
      with (","%char :: list_ascii_of_string (String.concat "," (t' :: tags))).
    rewrite split_first by assumption.
    rewrite IH; [reflexivity | discriminate | assumption].
Qed.

(** X17.  The tags of the card undo the joining of clean tags: for a list
    of clean tags that is not empty, the card of a story whose
    [topic_tags] is the tags joined by commas shows exactly these tags, in
    order. *)
Theorem tags_of_joined_tags (shown : list string) :
  shown <> [] -> Forall More.clean shown ->
  StoryCard.tags (Some (String.concat "," shown)) = Some shown.
Proof.
  intros Hne Hclean. unfold StoryCard.tags, StoryCard.tag_list.
  pose proof (split_concat shown Hne Hclean) as Hsplit.
  destruct (String.eqb_spec (String.concat "," shown) "") as [E | _].
  - exfalso. rewrite E in Hsplit. simpl in Hsplit.
    destruct shown as [| t [| t' ts]]; simpl in Hsplit.
    + contradiction.
    + inversion Hclean as [| ? ? [Ht _] _]; subst.
      injection Hsplit as Hs. now symmetry in Hs.
    + discriminate.
  - rewrite Hsplit. f_equal.
    clear Hne Hsplit. induction Hclean as [| t ts [Ht [_ Htrim]] _ IH].
    + reflexivity.
    + cbn [map filter]. rewrite Htrim.
      assert (Hn : StoryCard.nonempty (list_ascii_of_string t) = true).
      { destruct (list_ascii_of_string t); [contradiction | reflexivity]. }
      rewrite Hn. cbn [map].
      rewrite string_of_list_ascii_of_string. now f_equal.
Qed.

Lemma tags_of_joined_tags_witness :
  StoryCard.tags
    (Some (String.concat "," ["politics"; "security"; "economy"]%string))
  = Some ["politics"; "security"; "economy"]%string.
Proof.
  apply (tags_of_joined_tags ["politics"; "security"; "economy"]%string).
  - discriminate.
  - repeat constructor; try discriminate;
      simpl; intuition discriminate.
Defined.

(** ** The sources route: POST *)

(** X18.  A body without a name, a url or a bias classification (absent,
    [null] or empty) is refused with 400 "Missing required fields", before
    the binding is looked at: the database is left as it is. *)
Theorem missing_fields_refused (body : SourcesRoute.Body)
  (context : D1.Outcome SourcesRoute.Env) :
  SourcesRoute.or_null (SourcesRoute.name body) = None
  \/ SourcesRoute.or_null (SourcesRoute.url body) = None
  \/ SourcesRoute.or_null (SourcesRoute.bias_classification body) = None ->
  SourcesRoute.POST (D1.Resolved body) context
  = (Http.json_error "Missing required fields" Http.NoDetails 400, context).
Proof.
  intros H. unfold SourcesRoute.POST.
  destruct (SourcesRoute.or_null (SourcesRoute.name body));
    destruct (SourcesRoute.or_null (SourcesRoute.url body));
    destruct (SourcesRoute.or_null (SourcesRoute.bias_classification body));
    try reflexivity.
  destruct H as [H | [H | H]]; discriminate.
Qed.

Lemma missing_fields_refused_witness :
  SourcesRoute.POST
    (D1.Resolved
       {| SourcesRoute.name := Some "SONNA"%string;
          SourcesRoute.url := Some ""%string;
          SourcesRoute.rss_url := None;
          SourcesRoute.bias_classification := Some "Gov/Official"%string;
          SourcesRoute.logo_url := None |})
    (D1.Resolved {| SourcesRoute.DB := None |})
  = (Http.json_error "Missing required fields" Http.NoDetails 400,
     D1.Resolved {| SourcesRoute.DB := None |}).
Proof.
  apply (missing_fields_refused
           {| SourcesRoute.name := Some "SONNA"%string;
              SourcesRoute.url := Some ""%string;
              SourcesRoute.rss_url := None;
              SourcesRoute.bias_classification := Some "Gov/Official"%string;
              SourcesRoute.logo_url := None |}).
  right. left. reflexivity.
Defined.

Lemma find_map_same {A} (p : A -> bool) (f : A -> A) (l : list A) :
  (forall x, p (f x) = p x) -> find p (map f l) = option_map f (find p l).
Proof.
  intros H. induction l as [| x l IH]; simpl; [reflexivity |].
  rewrite H. destruct (p x); [reflexivity | exact IH].
Qed.

Lemma next_id_fresh (db : SourcesRoute.Database) (s : Source.t) :
  In s (SourcesRoute.sources db) -> Source.id s < SourcesRoute.next_id db.
Proof.
  unfold SourcesRoute.next_id.
  induction (SourcesRoute.sources db) as [| x l IH]; cbn [map fold_right In];
    [tauto |].
  intros [-> | H]; [lia |]. apply IH in H. lia.
Qed.

(** What the handler does with a complete body over a database. *)
Lemma POST_complete (body : SourcesRoute.Body) (db : SourcesRoute.Database)
  (n u bias : string) :
  SourcesRoute.or_null (SourcesRoute.name body) = Some n ->
  SourcesRoute.or_null (SourcesRoute.url body) = Some u ->
  SourcesRoute.or_null (SourcesRoute.bias_classification body) = Some bias ->
  SourcesRoute.POST (D1.Resolved body) (SourcesRoute.holding db)
  = match SourcesRoute.existing db u with
    | Some i =>
        (Http.json {| SourcesRoute.success := true;
                      SourcesRoute.message := "Source updated";
                      SourcesRoute.sourceId := i |},
         SourcesRoute.holding
           (SourcesRoute.update db n
              (SourcesRoute.or_null (SourcesRoute.rss_url body)) bias
              (SourcesRoute.or_null (SourcesRoute.logo_url body)) i))
    | None =>
        (Http.json {| SourcesRoute.success := true;
                      SourcesRoute.message := "Source added";
                      SourcesRoute.sourceId := SourcesRoute.next_id db |},
         SourcesRoute.holding
           (fst (SourcesRoute.insert db n u
                   (SourcesRoute.or_null (SourcesRoute.rss_url body)) bias
                   (SourcesRoute.or_null (SourcesRoute.logo_url body)))))
    end.
Proof.
  intros Hn Hu Hb. unfold SourcesRoute.POST. rewrite Hn, Hu, Hb. simpl.
  destruct (SourcesRoute.existing db u); reflexivity.
Qed.

Lemma existing_source (db : SourcesRoute.Database) (u : string) (i : Z) :
  SourcesRoute.existing db u = Some i ->
  exists s, SourcesRoute.by_url db u = Some s /\ Source.id s = i
            /\ In s (SourcesRoute.sources db) /\ Source.url s = u.
Proof.
  unfold SourcesRoute.existing, SourcesRoute.by_url.
  destruct (find _ _) as [s |] eqn:E; simpl; [| discriminate].
  intros H. injection H as <-. exists s.
  apply find_some in E. destruct E as [Hin Hu]. apply String.eqb_eq in Hu.
  tauto.
Qed.

Lemma by_url_update (db : SourcesRoute.Database) (n : string)
  (rss : option string) (bias : string) (logo : option string) (i : Z)
  (u : string) :
  SourcesRoute.by_url (SourcesRoute.update db n rss bias logo i) u
  = option_map
      (fun s =>
         if Source.id s =? i then
           {| Source.id := Source.id s;
              Source.name := n;
              Source.url := Source.url s;
              Source.rss_url := rss;
              Source.bias_classification := bias;
              Source.logo_url := logo;
              Source.last_checked := Source.last_checked s |}
         else s)
      (SourcesRoute.by_url db u).
Proof.
  unfold SourcesRoute.by_url, SourcesRoute.update. simpl.
  apply find_map_same. intros s. now destruct (Source.id s =? i).
Qed.

(** X19.  After a POST with a complete body the source with the posted url
    carries the posted name, bias classification, feed url and logo url
    (an empty feed or logo url stored as [NULL]), and its id is the
    [sourceId] of the response; the response says "Source updated" when a
    source with the url was there and "Source added" when not. *)
Theorem posted_source_is_stored (body : SourcesRoute.Body)
  (db : SourcesRoute.Database) (n u bias : string) :
  SourcesRoute.or_null (SourcesRoute.name body) = Some n ->
  SourcesRoute.or_null (SourcesRoute.url body) = Some u ->
  SourcesRoute.or_null (SourcesRoute.bias_classification body) = Some bias ->
  exists db' s,
    SourcesRoute.POST (D1.Resolved body) (SourcesRoute.holding db)
    = (Http.json
         {| SourcesRoute.success := true;
            SourcesRoute.message :=
              match SourcesRoute.by_url db u with
              | Some _ => "Source updated"
              | None => "Source added"
              end;
            SourcesRoute.sourceId := Source.id s |},
       SourcesRoute.holding db')
    /\ SourcesRoute.by_url db' u = Some s
    /\ Source.name s = n
    /\ Source.url s = u
    /\ Source.bias_classification s = bias
    /\ Source.rss_url s = SourcesRoute.or_null (SourcesRoute.rss_url body)
    /\ Source.logo_url s = SourcesRoute.or_null (SourcesRoute.logo_url body).
Proof.
  intros Hn Hu Hb. rewrite (POST_complete body db n u bias Hn Hu Hb).
  destruct (SourcesRoute.existing db u) as [i |] eqn:E.
  - destruct (existing_source db u i E) as [s0 [Hs0 [Hid [_ Hurl]]]].
    eexists. eexists. split.
    + rewrite Hs0. f_equal. f_equal.
      instantiate (1 := {| Source.id := Source.id s0;
                           Source.name := n;
                           Source.url := Source.url s0;
                           Source.rss_url :=
                             SourcesRoute.or_null (SourcesRoute.rss_url body);
                           Source.bias_classification := bias;
                           Source.logo_url :=
                             SourcesRoute.or_null (SourcesRoute.logo_url body);
                           Source.last_checked := Source.last_checked s0 |}).
      simpl. now rewrite Hid.
    + split.
      * rewrite by_url_update, Hs0. simpl. now rewrite Hid, Z.eqb_refl.
      * simpl. repeat split; auto.
  - assert (Hnone : SourcesRoute.by_url db u = None).
    { unfold SourcesRoute.existing in E. unfold SourcesRoute.by_url.
      destruct (find _ _); [discriminate | reflexivity]. }
    eexists. eexists. split.
    + rewrite Hnone. f_equal. f_equal.
      instantiate (1 := {| Source.id := SourcesRoute.next_id db;
                           Source.name := n;
                           Source.url := u;
                           Source.rss_url :=
                             SourcesRoute.or_null (SourcesRoute.rss_url body);
                           Source.bias_classification := bias;
                           Source.logo_url :=
                             SourcesRoute.or_null (SourcesRoute.logo_url body);
                           Source.last_checked := None |}).
      reflexivity.
    + split.
      * unfold SourcesRoute.by_url in *. simpl. rewrite find_app_last, Hnone.
        simpl. now rewrite String.eqb_refl.
      * simpl. repeat split; auto.
Qed.

Lemma posted_source_is_stored_witness :
  exists db' s,
    SourcesRoute.POST
      (D1.Resolved
         {| SourcesRoute.name := Some "Horseed Media"%string;
            SourcesRoute.url := Some "https://horseedmedia.net/"%string;
            SourcesRoute.rss_url := Some ""%string;
            SourcesRoute.bias_classification := Some "Independent Local"%string;
            SourcesRoute.logo_url := None |})
      (SourcesRoute.holding
         {| SourcesRoute.sources := []; SourcesRoute.sequence := 0 |})
    = (Http.json
         {| SourcesRoute.success := true;
            SourcesRoute.message := "Source added";
            SourcesRoute.sourceId := Source.id s |},
       SourcesRoute.holding db')
    /\ SourcesRoute.by_url db' "https://horseedmedia.net/" = Some s
    /\ Source.name s = "Horseed Media"%string
    /\ Source.url s = "https://horseedmedia.net/"%string
    /\ Source.bias_classification s = "Independent Local"%string
    /\ Source.rss_url s = None
    /\ Source.logo_url s = None.
Proof.
  apply (posted_source_is_stored
           {| SourcesRoute.name := Some "Horseed Media"%string;
              SourcesRoute.url := Some "https://horseedmedia.net/"%string;
              SourcesRoute.rss_url := Some ""%string;
              SourcesRoute.bias_classification := Some "Independent Local"%string;
              SourcesRoute.logo_url := None |}
           {| SourcesRoute.sources := []; SourcesRoute.sequence := 0 |}
           "Horseed Media" "https://horseedmedia.net/" "Independent Local");
    reflexivity.
Defined.

Lemma existing_update (db : SourcesRoute.Database) (n : string)
  (rss : option string) (bias : string) (logo : option string) (i : Z)
  (u : string) :
  SourcesRoute.existing db u = Some i ->
  SourcesRoute.existing (SourcesRoute.update db n rss bias logo i) u = Some i.
Proof.
  intros E. destruct (existing_source db u i E) as [s0 [Hs0 [Hid _]]].
  unfold SourcesRoute.existing.
  change (find (fun s => String.eqb (Source.url s) u)
            (SourcesRoute.sources (SourcesRoute.update db n rss bias logo i)))
    with (SourcesRoute.by_url (SourcesRoute.update db n rss bias logo i) u).
  rewrite by_url_update, Hs0. subst i. cbn [option_map].
  now rewrite Z.eqb_refl.
Qed.

Lemma update_twice (db : SourcesRoute.Database) (n : string)
  (rss : option string) (bias : string) (logo : option string) (i : Z) :
  SourcesRoute.update (SourcesRoute.update db n rss bias logo i) n rss bias logo i
  = SourcesRoute.update db n rss bias logo i.
Proof.
  unfold SourcesRoute.update. simpl. f_equal.
  rewrite map_map. apply map_ext. intros s.
  destruct (Z.eqb_spec (Source.id s) i) as [E | E]; simpl.
  - now rewrite E, Z.eqb_refl.
  - destruct (Z.eqb_spec (Source.id s) i); [contradiction | reflexivity].
Qed.

Lemma update_after_insert (db : SourcesRoute.Database) (n u : string)
  (rss : option string) (bias : string) (logo : option string) :
  SourcesRoute.update (fst (SourcesRoute.insert db n u rss bias logo))
    n rss bias logo (SourcesRoute.next_id db)
  = fst (SourcesRoute.insert db n u rss bias logo).
Proof.
  unfold SourcesRoute.update, SourcesRoute.insert. simpl. f_equal.
  rewrite map_app. simpl. rewrite Z.eqb_refl. f_equal.
  rewrite <- (map_id (SourcesRoute.sources db)) at 2.
  apply map_ext_in. intros s Hs. apply next_id_fresh in Hs.
  destruct (Z.eqb_spec (Source.id s) (SourcesRoute.next_id db)); [lia | reflexivity].
Qed.

(** X20.  POST is idempotent: posting a complete body a second time leaves
    the database as the first POST left it, and the second response says
    "Source updated" with the [sourceId] of the first. *)
Theorem post_twice (body : SourcesRoute.Body) (db : SourcesRoute.Database)
  (n u bias : string) :
  SourcesRoute.or_null (SourcesRoute.name body) = Some n ->
  SourcesRoute.or_null (SourcesRoute.url body) = Some u ->
  SourcesRoute.or_null (SourcesRoute.bias_classification body) = Some bias ->
  exists db' message i,
    SourcesRoute.POST (D1.Resolved body) (SourcesRoute.holding db)
    = (Http.json {| SourcesRoute.success := true;
                    SourcesRoute.message := message;
                    SourcesRoute.sourceId := i |},
       SourcesRoute.holding db')
    /\ SourcesRoute.POST (D1.Resolved body) (SourcesRoute.holding db')
       = (Http.json {| SourcesRoute.success := true;
                       SourcesRoute.message := "Source updated";
                       SourcesRoute.sourceId := i |},
          SourcesRoute.holding db').
Proof.
  intros Hn Hu Hb. rewrite (POST_complete body db n u bias Hn Hu Hb).
  destruct (SourcesRoute.existing db u) as [i |] eqn:E.
  - eexists. eexists. eexists. split; [reflexivity |].
    rewrite (POST_complete body _ n u bias Hn Hu Hb).
    rewrite (existing_update _ _ _ _ _ _ _ E). now rewrite update_twice.
  - eexists. eexists. eexists. split; [reflexivity |].
    rewrite (POST_complete body _ n u bias Hn Hu Hb).
    assert (E' : SourcesRoute.existing
                   (fst (SourcesRoute.insert db n u
                           (SourcesRoute.or_null (SourcesRoute.rss_url body)) bias
                           (SourcesRoute.or_null (SourcesRoute.logo_url body)))) u
                 = Some (SourcesRoute.next_id db)).
    { unfold SourcesRoute.existing in *. simpl. rewrite find_app_last.
      destruct (find _ (SourcesRoute.sources db)); [discriminate |].
      simpl. now rewrite String.eqb_refl. }
    rewrite E'. now rewrite update_after_insert.
Qed.

Lemma post_twice_witness :
  exists db' message i,
    SourcesRoute.POST
      (D1.Resolved
         {| SourcesRoute.name := Some "SONNA"%string;
            SourcesRoute.url := Some "https://sonna.so/en/"%string;
            SourcesRoute.rss_url := Some "https://sonna.so/en/feed/"%string;
            SourcesRoute.bias_classification := Some "Gov/Official"%string;
            SourcesRoute.logo_url := None |})
      (SourcesRoute.holding
         {| SourcesRoute.sources := []; SourcesRoute.sequence := 0 |})
    = (Http.json {| SourcesRoute.success := true;
                    SourcesRoute.message := message;
                    SourcesRoute.sourceId := i |},
       SourcesRoute.holding db')
    /\ SourcesRoute.POST
         (D1.Resolved
            {| SourcesRoute.name := Some "SONNA"%string;
               SourcesRoute.url := Some "https://sonna.so/en/"%string;
               SourcesRoute.rss_url := Some "https://sonna.so/en/feed/"%string;
               SourcesRoute.bias_classification := Some "Gov/Official"%string;
               SourcesRoute.logo_url := None |})
         (SourcesRoute.holding db')
       = (Http.json {| SourcesRoute.success := true;
                       SourcesRoute.message := "Source updated";
                       SourcesRoute.sourceId := i |},
          SourcesRoute.holding db').
Proof.
  apply (post_twice
           {| SourcesRoute.name := Some "SONNA"%string;
              SourcesRoute.url := Some "https://sonna.so/en/"%string;
              SourcesRoute.rss_url := Some "https://sonna.so/en/feed/"%string;
              SourcesRoute.bias_classification := Some "Gov/Official"%string;
              SourcesRoute.logo_url := None |}
           {| SourcesRoute.sources := []; SourcesRoute.sequence := 0 |}
           "SONNA" "https://sonna.so/en/" "Gov/Official");
    reflexivity.
Defined.

(** The database that a POST with a complete body leaves. *)
Lemma POST_database (body : SourcesRoute.Body) (db : SourcesRoute.Database)
  (n u bias : string) :
  SourcesRoute.or_null (SourcesRoute.name body) = Some n ->
  SourcesRoute.or_null (SourcesRoute.url body) = Some u ->
  SourcesRoute.or_null (SourcesRoute.bias_classification body) = Some bias ->
  SourcesRoute.database_of
    (snd (SourcesRoute.POST (D1.Resolved body) (SourcesRoute.holding db)))
  = Some (match SourcesRoute.existing db u with
          | Some i =>
              SourcesRoute.update db n
                (SourcesRoute.or_null (SourcesRoute.rss_url body)) bias
                (SourcesRoute.or_null (SourcesRoute.logo_url body)) i
          | None =>
              fst (SourcesRoute.insert db n u
                     (SourcesRoute.or_null (SourcesRoute.rss_url body)) bias
                     (SourcesRoute.or_null (SourcesRoute.logo_url body)))
          end).
Proof.
  intros Hn Hu Hb. rewrite (POST_complete body db n u bias Hn Hu Hb).
  destruct (SourcesRoute.existing db u); reflexivity.
Qed.

Lemma update_urls (db : SourcesRoute.Database) (n : string)
  (rss : option string) (bias : string) (logo : option string) (i : Z) :
  map Source.url (SourcesRoute.sources (SourcesRoute.update db n rss bias logo i))
  = map Source.url (SourcesRoute.sources db)
  /\ map Source.id (SourcesRoute.sources (SourcesRoute.update db n rss bias logo i))
     = map Source.id (SourcesRoute.sources db).
Proof.
  unfold SourcesRoute.update. simpl. rewrite !map_map.
  split; apply map_ext; intros s; now destruct (Source.id s =? i).
Qed.

(** X21.  A POST with a complete body keeps the urls and the ids of the
    sources pairwise distinct when they were, and it adds exactly one
    source when no source had the url and none otherwise. *)
Theorem post_keeps_keys (body : SourcesRoute.Body) (db : SourcesRoute.Database)
  (n u bias : string) :
  SourcesRoute.or_null (SourcesRoute.name body) = Some n ->
  SourcesRoute.or_null (SourcesRoute.url body) = Some u ->
  SourcesRoute.or_null (SourcesRoute.bias_classification body) = Some bias ->
  exists db',
    SourcesRoute.database_of
      (snd (SourcesRoute.POST (D1.Resolved body) (SourcesRoute.holding db)))
    = Some db'
    /\ (NoDup (map Source.url (SourcesRoute.sources db)) ->
        NoDup (map Source.url (SourcesRoute.sources db')))
    /\ (NoDup (map Source.id (SourcesRoute.sources db)) ->
        NoDup (map Source.id (SourcesRoute.sources db')))
    /\ List.length (SourcesRoute.sources db')
       = (List.length (SourcesRoute.sources db)
          + match SourcesRoute.by_url db u with Some _ => 0 | None => 1 end)%nat.
Proof.
  intros Hn Hu Hb. rewrite (POST_database body db n u bias Hn Hu Hb).
  eexists. split; [reflexivity |].
  unfold SourcesRoute.existing, SourcesRoute.by_url.
  destruct (find _ (SourcesRoute.sources db)) as [s0 |] eqn:E; simpl option_map; cbv iota.
  - destruct (update_urls db n (SourcesRoute.or_null (SourcesRoute.rss_url body))
                bias (SourcesRoute.or_null (SourcesRoute.logo_url body))
                (Source.id s0)) as [Hurls Hids].
    rewrite Hurls, Hids. split; [tauto |]. split; [tauto |].
    unfold SourcesRoute.update. simpl. rewrite length_map. lia.
  - simpl. rewrite !map_app, length_app. simpl. split; [| split; [| lia]].
    + intros Hnd. apply NoDup_app_remove_l with (l := []). simpl.
      eapply Permutation_NoDup; [apply Permutation_cons_append |].
      constructor; [| assumption].
      intros Hin. apply in_map_iff in Hin. destruct Hin as [s [Hs Hin]].
      apply (find_none _ _ E) in Hin. rewrite Hs, String.eqb_refl in Hin.
      discriminate.
    + intros Hnd. apply NoDup_app_remove_l with (l := []). simpl.
      eapply Permutation_NoDup; [apply Permutation_cons_append |].
      constructor; [| assumption].
      intros Hin. apply in_map_iff in Hin. destruct Hin as [s [Hs Hin]].
      apply next_id_fresh in Hin. lia.
Qed.

Lemma post_keeps_keys_witness :
  exists db',
    SourcesRoute.database_of
      (snd (SourcesRoute.POST
              (D1.Resolved
                 {| SourcesRoute.name := Some "SONNA"%string;
                    SourcesRoute.url := Some "https://sonna.so/en/"%string;
                    SourcesRoute.rss_url := None;
                    SourcesRoute.bias_classification := Some "Gov/Official"%string;
                    SourcesRoute.logo_url := None |})
              (SourcesRoute.holding
                 {| SourcesRoute.sources := []; SourcesRoute.sequence := 0 |})))
    = Some db'
    /\ List.length (SourcesRoute.sources db') = 1%nat.
Proof.
  destruct (post_keeps_keys
              {| SourcesRoute.name := Some "SONNA"%string;
                 SourcesRoute.url := Some "https://sonna.so/en/"%string;
                 SourcesRoute.rss_url := None;
                 SourcesRoute.bias_classification := Some "Gov/Official"%string;
                 SourcesRoute.logo_url := None |}
              {| SourcesRoute.sources := []; SourcesRoute.sequence := 0 |}
              "SONNA" "https://sonna.so/en/" "Gov/Official"
              eq_refl eq_refl eq_refl) as [db' [H1 [_ [_ H2]]]].
  exists db'. split; [exact H1 | exact H2].
Defined.

Lemma same_id_same_source (l : list Source.t) (a b : Source.t) :
  NoDup (map Source.id l) -> In a l -> In b l -> Source.id a = Source.id b ->
  a = b.
Proof.
  induction l as [| x l IH]; simpl; intros Hnd Ha Hb Hid; [contradiction |].
  inversion Hnd as [| ? ? Hnotin Hnd']; subst.
  destruct Ha as [-> | Ha], Hb as [-> | Hb]; auto.
  - exfalso. apply Hnotin. rewrite Hid. now apply in_map.
  - exfalso. apply Hnotin. rewrite <- Hid. now apply in_map.
Qed.

(** X22.  A POST with a complete body touches no source with another url:
    when the ids of the sources are pairwise distinct, every source whose
    url is not the posted url is in the table afterwards, unchanged. *)
Theorem post_leaves_other_sources (body : SourcesRoute.Body)
  (db : SourcesRoute.Database) (n u bias : string) (s : Source.t) :
  SourcesRoute.or_null (SourcesRoute.name body) = Some n ->
  SourcesRoute.or_null (SourcesRoute.url body) = Some u ->
  SourcesRoute.or_null (SourcesRoute.bias_classification body) = Some bias ->
  NoDup (map Source.id (SourcesRoute.sources db)) ->
  In s (SourcesRoute.sources db) -> Source.url s <> u ->
  exists db',
    SourcesRoute.database_of
      (snd (SourcesRoute.POST (D1.Resolved body) (SourcesRoute.holding db)))
    = Some db'
    /\ In s (SourcesRoute.sources db').
Proof.
  intros Hn Hu Hb Hnd Hin Hurl. rewrite (POST_database body db n u bias Hn Hu Hb).
  eexists. split; [reflexivity |].
  destruct (SourcesRoute.existing db u) as [i |] eqn:E.
  - destruct (existing_source db u i E) as [s0 [_ [Hid [Hin0 Hurl0]]]].
    unfold SourcesRoute.update. simpl. apply in_map_iff. exists s.
    split; [| assumption].
    destruct (Z.eqb_spec (Source.id s) i) as [Ei | _]; [| reflexivity].
    exfalso. apply Hurl. rewrite <- Hurl0. f_equal.
    apply (same_id_same_source (SourcesRoute.sources db)); try assumption.
    congruence.
  - simpl. apply in_or_app. now left.
Qed.

Lemma post_leaves_other_sources_witness :
  exists db',
    SourcesRoute.database_of
      (snd (SourcesRoute.POST
              (D1.Resolved
                 {| SourcesRoute.name := Some "SONNA"%string;
                    SourcesRoute.url := Some "https://sonna.so/en/"%string;
                    SourcesRoute.rss_url := None;
                    SourcesRoute.bias_classification := Some "Gov/Official"%string;
                    SourcesRoute.logo_url := None |})
              (SourcesRoute.holding
                 {| SourcesRoute.sources :=
                      [Sample.source 1 "Horseed Media" "Independent Local"];
                    SourcesRoute.sequence := 1 |})))
    = Some db'
    /\ In (Sample.source 1 "Horseed Media" "Independent Local")
         (SourcesRoute.sources db').
Proof.
  apply (post_leaves_other_sources
           {| SourcesRoute.name := Some "SONNA"%string;
              SourcesRoute.url := Some "https://sonna.so/en/"%string;
              SourcesRoute.rss_url := None;
              SourcesRoute.bias_classification := Some "Gov/Official"%string;
              SourcesRoute.logo_url := None |}
           {| SourcesRoute.sources :=
                [Sample.source 1 "Horseed Media" "Independent Local"];
              SourcesRoute.sequence := 1 |}
           "SONNA" "https://sonna.so/en/" "Gov/Official"
           (Sample.source 1 "Horseed Media" "Independent Local")).
  - reflexivity.
  - reflexivity.
  - reflexivity.
  - simpl. repeat constructor; simpl; intuition.
  - now left.
  - discriminate.
Defined.

(** ** The blindspot detector: the fields of a blindspot *)

Lemma group_with_story (upd : JS.object Z -> Row.t -> JS.object Z)
  (rows : list Row.t) (k : Z) (d : StoryData.t) :
  In (k, d) (Spec.group_with upd rows) ->
  exists r0 rest,
    Spec.rows_of k rows = r0 :: rest
    /\ StoryData.story d = Detector.story_of_row r0.
Proof.
  intros Hin.
  apply (In_lookup Z.eqb Z_eqb_eq) in Hin; [| apply group_with_keys_NoDup].
  change (JS.lookup Z.eqb) with (@JS.Map_get StoryData.t) in Hin.
  unfold Spec.group_with in Hin. rewrite group_with_get in Hin.
  destruct (Spec.rows_of k rows) as [| r0 rest] eqn:E; [discriminate |].
  simpl JS.Map_get in Hin. injection Hin as <-.
  exists r0, rest. split; [reflexivity |]. now rewrite absorb_story.
Qed.

(** X23.  A blindspot of an answer carries the story data of the first row
    that was read for its story, and as [total_articles] the sum of the
    counts of the story's rows; when the rows have the primary key of
    [story_coverage] and their bias names are ordinary property names, its
    [bias_distribution] lists the story's rows, bias and count, in the
    order read.  This holds of both copies of the handler. *)
Theorem blindspot_fields (request : Http.NextRequest) (rows : list Row.t)
  (b : BlindspotStory.t) :
  In b (Spec.blindspots_of (Blindspots.GET request (Detector.serving rows)))
  \/ In b (Spec.blindspots_of
             (BlindspotsCopy.GET request (Detector.serving rows))) ->
  (exists r0 rest,
      Spec.rows_of (BlindspotStory.id b) rows = r0 :: rest
      /\ BlindspotStory.representative_headline b = Row.representative_headline r0
      /\ BlindspotStory.summary b = Row.summary r0
      /\ BlindspotStory.first_seen_date b = Row.first_seen_date r0
      /\ BlindspotStory.last_updated_date b = Row.last_updated_date r0
      /\ BlindspotStory.topic_tags b = Row.topic_tags r0)
  /\ BlindspotStory.total_articles b
     = Spec.story_total rows (BlindspotStory.id b)
  /\ (Spec.primary_key rows ->
      Spec.ordinary_biases rows ->
      BlindspotStory.bias_distribution b
      = map Spec.entry_of (Spec.rows_of (BlindspotStory.id b) rows)).
Proof.
  rewrite GET_serving, GET_copy_serving. unfold Spec.blindspots_of. simpl.
  intros Hb.
  assert (Hgen : exists upd k d,
             In (k, d) (Spec.group_with upd rows) /\ b = Spec.candidate d).
  { rewrite detect_overwrite, detect_accumulate in Hb.
    destruct Hb as [Hb | Hb]; apply detect_with_In in Hb;
      destruct Hb as [k [d [Hin [_ Hc]]]]; eauto. }
  destruct Hgen as [upd [k [d [Hin Hc]]]].
  destruct (group_with_total upd rows k d Hin) as [Hid Htot].
  destruct (group_with_story upd rows k d Hin) as [r0 [rest [Hrows Hstory]]].
  assert (Hbid : BlindspotStory.id b = k) by (subst b; exact Hid).
  split; [| split].
  - exists r0, rest. rewrite Hbid. split; [exact Hrows |].
    subst b. simpl. rewrite Hstory. simpl. repeat split.
  - rewrite Hbid. subst b. exact Htot.
  - intros Hpk _. rewrite detect_copy_eq in Hb by assumption.
    assert (Hb' : In b (Blindspots.detect (Detector.limit_of request)
                          (Detector.threshold_of request) rows)) by tauto.
    rewrite detect_overwrite in Hb'. apply detect_with_In in Hb'.
    destruct Hb' as [k' [d' [Hin' [_ Hc']]]].
    destruct (coverage_of_rows rows k' d' Hpk Hin') as [Hcov [_ Hid']].
    assert (Hk' : BlindspotStory.id b = k') by (rewrite Hc'; exact Hid').
    rewrite Hk', Hc'. exact Hcov.
Qed.

Lemma blindspot_fields_witness :
  Forall
    (fun b =>
       BlindspotStory.total_articles b
       = Spec.story_total Sample.nine_to_one (BlindspotStory.id b)
       /\ BlindspotStory.bias_distribution b
          = map Spec.entry_of
              (Spec.rows_of (BlindspotStory.id b) Sample.nine_to_one))
    (Spec.blindspots_of
       (BlindspotsCopy.GET Sample.plain (Detector.serving Sample.nine_to_one))).
Proof.
  apply Forall_forall. intros b Hb.
  destruct (blindspot_fields Sample.plain Sample.nine_to_one b (or_intror Hb))
    as [_ [Htotal Hdistribution]].
  split; [exact Htotal |]. apply Hdistribution.
  - unfold Spec.primary_key. simpl.
    repeat constructor; simpl; intuition discriminate.
  - intros r [<- | [<- | []]]; reflexivity.
Defined.

Lemma default_color_fallback_witness :
  Names.inherited "Community" = false
  /\ exists c,
      BiasBar.color BiasBar.DEFAULT_BIAS_COLORS "Community" = Some c
      /\ c = "bg-gray-400"%string.
Proof.
  split; [reflexivity |].
  destruct (default_color_fallback "Community" eq_refl) as [c [H1 [_ H3]]].
  exists c. split; [exact H1 |]. apply H3. reflexivity.
Defined.
